(** * The Enigma machine of task 6: rotors, plugboard, stepping, signal path.

    The stepping routine [stepRotors] and the per-character routine
    [encryptChar] are embedded from the fixed code listed in [6/fix.md].
    The rest of [enigma.js] (the [Rotor] class, [plugboardSwap], the rotor
    catalog, the reflector table, the constructor and [process]) is known
    through [enigma.test.js] and the specification only; those parts are
    modelled from the specification and marked as such.

    Characters are one-character JavaScript strings, modelled as [ascii];
    tables (alphabet, wirings, reflector) are lists of characters, messages
    are [string]s.  Integers are [Z]. *)

From Stdlib Require Import ZArith List Bool Ascii String Lia.
Import ListNotations.
Local Open Scope Z_scope.

(** ** Outcomes of JavaScript code *)

(** [TypeError]: a method was called on [undefined] (for instance
    [this.rotors[2].atNotch()] on a machine with two rotors).
    [UndefinedValue]: a table lookup fell outside its table, so that the
    JavaScript value is [undefined]; the model does not follow the
    computation beyond that point.
    [ConfigError]: the configuration error of the specification. *)
Inductive error : Type :=
| TypeError
| UndefinedValue
| ConfigError.

Inductive result (A : Type) : Type :=
| Ok (a : A)
| Err (e : error).
Arguments Ok {A} a.
Arguments Err {A} e.

Definition bind {A B : Type} (x : result A) (f : A -> result B) : result B :=
  match x with
  | Ok a => f a
  | Err e => Err e
  end.

Notation "x <- e1 ;; e2" := (bind e1 (fun x => e2))
  (at level 100, e1 at next level, right associativity).
Notation "' p <- e1 ;; e2" := (bind e1 (fun p => e2))
  (at level 100, p pattern, e1 at next level, right associativity).

(** ** Alphabet and table lookups *)

Definition chars (s : string) : list ascii := list_ascii_of_string s.

(** [const alphabet = 'ABCDEFGHIJKLMNOPQRSTUVWXYZ'] (imported by the tests;
    the specification fixes it as the 26 uppercase Latin letters). *)
Definition alphabet : list ascii := chars "ABCDEFGHIJKLMNOPQRSTUVWXYZ".

(** [s.indexOf(c)] for a one-character [c]: first index, or -1. *)
Definition shiftIndex (i : Z) : Z := if i <? 0 then -1 else i + 1.

Fixpoint indexOf (s : list ascii) (c : ascii) : Z :=
  match s with
  | [] => -1
  | x :: s' => if Ascii.eqb x c then 0 else shiftIndex (indexOf s' c)
  end.

(** [s.includes(c)] for a one-character [c]. *)
Definition includes (s : list ascii) (c : ascii) : bool :=
  existsb (Ascii.eqb c) s.

(** [s[i]]: [undefined] outside the table. *)
Definition charAt (s : list ascii) (i : Z) : result ascii :=
  if i <? 0 then Err UndefinedValue
  else match nth_error s (Z.to_nat i) with
       | Some c => Ok c
       | None => Err UndefinedValue
       end.

(** ** Rotor *)

Record Rotor : Type := mkRotor {
  wiring : list ascii;
  notch : ascii;
  ringSetting : Z;
  position : Z
}.

Module RotorOps.

(** Modelled from the spec: the body of [Rotor.step] is missing;
    "increments position by 1 modulo 26". *)
Definition step (r : Rotor) : Rotor :=
  mkRotor (wiring r) (notch r) (ringSetting r) ((position r + 1) mod 26).

(** Modelled from the spec: the body of [Rotor.atNotch] is missing;
    "true iff current position equals the alphabet index of notch". *)
Definition atNotch (r : Rotor) : bool :=
  position r =? indexOf alphabet (notch r).

(** The offset [position - ringSetting] both passes use. *)
Definition offset (r : Rotor) : Z := position r - ringSetting r.

(** Modelled from the spec: the body of [Rotor.forward] is missing;
    "(a) adding the rotor's position - ringSetting offset to the input's
    alphabet index, (b) looking up the result in wiring, (c) subtracting
    the same offset from the wiring's output index, all modulo 26". *)
Definition forward (r : Rotor) (c : ascii) : result ascii :=
  w <- charAt (wiring r) ((indexOf alphabet c + offset r) mod 26) ;;
  charAt alphabet ((indexOf alphabet w - offset r) mod 26).

(** Modelled from the spec: the body of [Rotor.backward] is missing;
    "locates the input letter's position within wiring adjusted by the
    same offset, returns the corresponding plain alphabet letter adjusted
    back". *)
Definition backward (r : Rotor) (c : ascii) : result ascii :=
  a <- charAt alphabet ((indexOf alphabet c + offset r) mod 26) ;;
  charAt alphabet ((indexOf (wiring r) a - offset r) mod 26).

End RotorOps.

(** ** Plugboard *)

(** Modelled from the spec: the body of [plugboardSwap] is missing; "scans
    the pair list; if the letter appears in some pair, returns its partner;
    otherwise returns the letter unchanged". *)
Fixpoint plugboardSwap (c : ascii) (pairs : list (ascii * ascii)) : ascii :=
  match pairs with
  | [] => c
  | (a, b) :: rest =>
      if Ascii.eqb c a then b
      else if Ascii.eqb c b then a
      else plugboardSwap c rest
  end.

(** ** Enigma machine *)

Record Enigma : Type := mkEnigma {
  rotors : list Rotor;
  plugboardPairs : list (ascii * ascii)
}.

(** [this.rotors[i]]; calling a method on a missing rotor throws. *)
Definition rotorAt (m : Enigma) (i : nat) : result Rotor :=
  match nth_error (rotors m) i with
  | Some r => Ok r
  | None => Err TypeError
  end.

(** [this.rotors[i].step()]: the rotor object in slot [i] is replaced by its
    stepped value.  Each slot holds an object of its own (the constructor
    creates one per slot), so no other slot changes. *)
Fixpoint stepAt (rs : list Rotor) (i : nat) : list Rotor :=
  match rs, i with
  | [], _ => []
  | r :: rs', O => RotorOps.step r :: rs'
  | r :: rs', S i' => r :: stepAt rs' i'
  end.

Definition stepRotor (m : Enigma) (i : nat) : Enigma :=
  mkEnigma (stepAt (rotors m) i) (plugboardPairs m).

(** [stepRotors], fixed code of [6/fix.md]:
<<
  const middleAtNotch = this.rotors[1].atNotch();
  if (this.rotors[2].atNotch()) this.rotors[1].step();
  if (middleAtNotch) { this.rotors[0].step(); this.rotors[1].step(); }
  this.rotors[2].step();
>> *)
Definition stepRotors (m : Enigma) : result Enigma :=
  r1 <- rotorAt m 1 ;;
  let middleAtNotch := RotorOps.atNotch r1 in
  r2 <- rotorAt m 2 ;;
  let m1 := if RotorOps.atNotch r2 then stepRotor m 1 else m in
  let m2 := if middleAtNotch then stepRotor (stepRotor m1 0) 1 else m1 in
  Ok (stepRotor m2 2).

(** [for (let i = this.rotors.length - 1; i >= 0; i--) c = this.rotors[i].forward(c)] *)
Fixpoint forwardAll (rs : list Rotor) (c : ascii) : result ascii :=
  match rs with
  | [] => Ok c
  | r :: rs' => c' <- forwardAll rs' c ;; RotorOps.forward r c'
  end.

(** [for (let i = 0; i < this.rotors.length; i++) c = this.rotors[i].backward(c)] *)
Fixpoint backwardAll (rs : list Rotor) (c : ascii) : result ascii :=
  match rs with
  | [] => Ok c
  | r :: rs' => c' <- RotorOps.backward r c ;; backwardAll rs' c'
  end.

(** [REFLECTOR[alphabet.indexOf(c)]]: the reflector lookup of
    [encryptChar], over a reflector table [R]. *)
Definition reflect (R : list ascii) (c : ascii) : result ascii :=
  charAt R (indexOf alphabet c).

Section Machine.

(** The value of the reflector table [REFLECTOR] is not given: the table
    is a parameter here, as the rotor catalog [ROTORS] is below. *)
Variable REFLECTOR : list ascii.

(** The signal path of [encryptChar] after stepping. *)
Definition signalPath (m : Enigma) (c : ascii) : result ascii :=
  let c1 := plugboardSwap c (plugboardPairs m) in
  c2 <- forwardAll (rotors m) c1 ;;
  c3 <- reflect REFLECTOR c2 ;;
  c4 <- backwardAll (rotors m) c3 ;;
  Ok (plugboardSwap c4 (plugboardPairs m)).

(** [encryptChar], fixed code of [6/fix.md]:
<<
if (!alphabet.includes(c)) return c;
this.stepRotors();
c = plugboardSwap(c, this.plugboardPairs);
for (...) c = this.rotors[i].forward(c);
c = REFLECTOR[alphabet.indexOf(c)];
for (...) c = this.rotors[i].backward(c);
return plugboardSwap(c, this.plugboardPairs);
>>
    The result is the machine after the call and the returned character. *)
Definition encryptChar (m : Enigma) (c : ascii) : result (Enigma * ascii) :=
  if negb (includes alphabet c) then Ok (m, c)
  else
    m' <- stepRotors m ;;
    c' <- signalPath m' c ;;
    Ok (m', c').

End Machine.

(** ** Message-level encryption *)

Definition isLower (c : ascii) : bool :=
  let n := N_of_ascii c in ((97 <=? n) && (n <=? 122))%N.

(** Uppercasing of one character, on the ASCII range: [a]..[z] go to
    [A]..[Z], every other character is kept. *)
Definition upper (c : ascii) : ascii :=
  if isLower c then ascii_of_N (N_of_ascii c - 32) else c.

(** [text.toUpperCase()], on ASCII text. *)
Definition toUpperCase (text : string) : string :=
  string_of_list_ascii (map upper (chars text)).

Section Process.

Variable REFLECTOR : list ascii.

(** The characters of the message in order, each through [encryptChar],
    the machine threaded from one call to the next. *)
Fixpoint processChars (m : Enigma) (cs : list ascii)
  : result (Enigma * list ascii) :=
  match cs with
  | [] => Ok (m, [])
  | c :: cs' =>
      '(m1, c') <- encryptChar REFLECTOR m c ;;
      '(m2, out) <- processChars m1 cs' ;;
      Ok (m2, c' :: out)
  end.

(** Modelled from the spec: the body of [process] is missing; it
    "uppercases the input, iterates characters in order, applies
    encryptChar to each (mutating rotor state progressively), concatenates
    results". *)
Definition process (m : Enigma) (text : string) : result (Enigma * string) :=
  '(m', out) <- processChars m (chars (toUpperCase text)) ;;
  Ok (m', string_of_list_ascii out).

End Process.

(** ** Construction *)

Record Config : Type := mkConfig {
  rotorIDs : list Z;
  rotorPositions : list Z;
  ringSettings : list Z;
  pairs : list (ascii * ascii)
}.

Definition inRange (n : Z) : bool := (0 <=? n) && (n <=? 25).

Definition isLetter (c : ascii) : bool := includes alphabet c.

(** The letters of a plugboard, pair after pair. *)
Fixpoint lettersOf (ps : list (ascii * ascii)) : list ascii :=
  match ps with
  | [] => []
  | (a, b) :: rest => a :: b :: lettersOf rest
  end.

Fixpoint nodupb (l : list ascii) : bool :=
  match l with
  | [] => true
  | x :: l' => negb (includes l' x) && nodupb l'
  end.

(** "0 to 13 pairs, no letter appears in more than one pair": pairs of
    letters of the alphabet, no letter used twice. *)
Definition plugboardOk (ps : list (ascii * ascii)) : bool :=
  forallb isLetter (lettersOf ps) && nodupb (lettersOf ps).

Section Construct.

Variable ROTORS : list (list ascii * ascii).

Definition catalogAt (id : Z) : result (list ascii * ascii) :=
  if id <? 0 then Err ConfigError
  else match nth_error ROTORS (Z.to_nat id) with
       | Some e => Ok e
       | None => Err ConfigError
       end.

(** One rotor per selected index, with the ring setting and the position
    of the same slot. *)
Fixpoint buildRotors (ids pos rings : list Z) : result (list Rotor) :=
  match ids, pos, rings with
  | [], _, _ => Ok []
  | id :: ids', p :: pos', r :: rings' =>
      e <- catalogAt id ;;
      rest <- buildRotors ids' pos' rings' ;;
      Ok (mkRotor (fst e) (snd e) r p :: rest)
  | _, _, _ => Err ConfigError
  end.

(** Modelled from the spec: the constructor of [Enigma] is missing.
    It takes "exactly 3 indices into a fixed rotor-wiring catalog",
    "3 integers, 0-25" as initial positions and as ring settings, and
    "0-13 disjoint unordered letter pairs"; a malformed configuration
    "should fail fast at construction time with a configuration error". *)
Definition construct (cfg : Config) : result Enigma :=
  if negb ((List.length (rotorIDs cfg) =? 3)%nat
           && (List.length (rotorPositions cfg) =? 3)%nat
           && (List.length (ringSettings cfg) =? 3)%nat)
  then Err ConfigError
  else if negb (forallb inRange (rotorPositions cfg)
                && forallb inRange (ringSettings cfg))
  then Err ConfigError
  else if negb (plugboardOk (pairs cfg)) then Err ConfigError
  else
    rs <- buildRotors (rotorIDs cfg) (rotorPositions cfg) (ringSettings cfg) ;;
    Ok (mkEnigma rs (pairs cfg)).

End Construct.

(** ** Well-formed tables and machines *)

(** A wiring is a permutation of the alphabet: 26 characters among which
    every letter occurs. *)
Definition validWiring (w : list ascii) : bool :=
  (List.length w =? 26)%nat && forallb (includes w) alphabet.

Definition validCatalog (cat : list (list ascii * ascii)) : bool :=
  forallb (fun e => validWiring (fst e)) cat.

(** The reflector of the specification: a table over the alphabet that is
    an involution and sends no letter to itself. *)
Definition validReflector (R : list ascii) : bool :=
  forallb (fun c =>
             match reflect R c with
             | Ok d =>
                 isLetter d && negb (Ascii.eqb d c)
                 && match reflect R d with
                    | Ok e => Ascii.eqb e c
                    | Err _ => false
                    end
             | Err _ => false
             end) alphabet.

(** No letter of a pair occurs in a later pair. *)
Fixpoint disjointPairs (ps : list (ascii * ascii)) : bool :=
  match ps with
  | [] => true
  | (a, b) :: rest =>
      negb (includes (lettersOf rest) a) && negb (includes (lettersOf rest) b)
      && disjointPairs rest
  end.

Definition validMachine (m : Enigma) : bool :=
  (3 <=? List.length (rotors m))%nat
  && forallb (fun r => validWiring (wiring r)) (rotors m)
  && forallb isLetter (lettersOf (plugboardPairs m))
  && disjointPairs (plugboardPairs m).

(** A letter is in a pair when it is one of its two ends. *)
Definition inPair (x : ascii) (p : ascii * ascii) : Prop :=
  x = fst p \/ x = snd p.

(** The malformed configurations the specification lists: a position or a
    ring setting outside 0..25, fewer than three rotors, a letter in more
    than one plugboard pair. *)
Definition malformed (cfg : Config) : Prop :=
  (exists p, In p (rotorPositions cfg) /\ ~ 0 <= p <= 25)
  \/ (exists r, In r (ringSettings cfg) /\ ~ 0 <= r <= 25)
  \/ (List.length (rotorIDs cfg) < 3)%nat
  \/ (exists i j p q x,
         i <> j /\ nth_error (pairs cfg) i = Some p
         /\ nth_error (pairs cfg) j = Some q /\ inPair x p /\ inPair x q).

(** ** A catalog instance *)

(** The historical Rotors I, II, III and reflector B, which the tests agree
    with ([ROTORS[0].wiring] starts with [E]; [E] is the notch of rotor II). *)
Module Historical.

Definition ROTORS : list (list ascii * ascii) :=
  [ (chars "EKMFLGDQVZNTOWYHXUSPAIBRCJ", "Q"%char);
    (chars "AJDKSIRUXBLHWTMCQGZNPYFVOE", "E"%char);
    (chars "BDFHJLCPRTXVZNYEIWGAKMUSQO", "V"%char) ].

Definition REFLECTOR : list ascii := chars "YRUHQSLDPXNGOKMIEBFZCWVJAT".

Definition config (pos rings : list Z) (ps : list (ascii * ascii)) : Config :=
  mkConfig [0; 1; 2] pos rings ps.

(** The machine of rotors I, II, III with ring settings 0, at the given
    positions. *)
Definition machine (p0 p1 p2 : Z) (ps : list (ascii * ascii)) : Enigma :=
  mkEnigma [mkRotor (chars "EKMFLGDQVZNTOWYHXUSPAIBRCJ") "Q" 0 p0;
            mkRotor (chars "AJDKSIRUXBLHWTMCQGZNPYFVOE") "E" 0 p1;
            mkRotor (chars "BDFHJLCPRTXVZNYEIWGAKMUSQO") "V" 0 p2] ps.

End Historical.

(** ** The code before the fixes *)

(** [stepRotors], original (buggy) code of [6/fix.md]:
<<
  if (this.rotors[2].atNotch()) this.rotors[1].step();
  if (this.rotors[1].atNotch()) this.rotors[0].step();
  this.rotors[2].step();
>>
    The notch of the middle rotor is read after the right rotor's notch may
    have moved it. *)
Definition stepRotorsBuggy (m : Enigma) : result Enigma :=
  r2 <- rotorAt m 2 ;;
  let m1 := if RotorOps.atNotch r2 then stepRotor m 1 else m in
  r1 <- rotorAt m1 1 ;;
  let m2 := if RotorOps.atNotch r1 then stepRotor m1 0 else m1 in
  Ok (stepRotor m2 2).

Section Original.

Variable REFLECTOR : list ascii.

(** The method [this.stepRotors] of the class the listing belongs to: the
    listing of [encryptChar] calls it whichever of the two versions it is. *)
Variable stepRotorsMethod : Enigma -> result Enigma.

(** The signal path of the original [encryptChar]: it ends after the
    backward pass. *)
Definition signalPathBuggy (m : Enigma) (c : ascii) : result ascii :=
  let c1 := plugboardSwap c (plugboardPairs m) in
  c2 <- forwardAll (rotors m) c1 ;;
  c3 <- reflect REFLECTOR c2 ;;
  backwardAll (rotors m) c3.

(** [encryptChar], original (buggy) code of [6/fix.md]:
<<
  if (!alphabet.includes(c)) return c;
  this.stepRotors();
  c = plugboardSwap(c, this.plugboardPairs);
  for (...) c = this.rotors[i].forward(c);
  c = REFLECTOR[alphabet.indexOf(c)];
  for (...) c = this.rotors[i].backward(c);
  return c;
>> *)
Definition encryptCharBuggy (m : Enigma) (c : ascii)
  : result (Enigma * ascii) :=
  if negb (includes alphabet c) then Ok (m, c)
  else
    m' <- stepRotorsMethod m ;;
    c' <- signalPathBuggy m' c ;;
    Ok (m', c').

End Original.

(** [n] keystrokes: the stepping routine [step] called [n] times in a row,
    as [n] calls of [encryptChar] on letters do. *)
Fixpoint keystrokes (step : Enigma -> result Enigma) (n : nat) (m : Enigma)
  : result Enigma :=
  match n with
  | O => Ok m
  | S n' => m1 <- step m ;; keystrokes step n' m1
  end.

(** * Properties *)

(** ** Table lookups *)

Lemma includes_In (s : list ascii) (c : ascii) :
  includes s c = true <-> In c s.
Proof.
  unfold includes. rewrite existsb_exists. split.
  - intros [x [Hin Heq]]. apply Ascii.eqb_eq in Heq. now subst.
  - intros Hin. exists c. split; [assumption | apply Ascii.eqb_refl].
Qed.

Lemma includes_false (s : list ascii) (c : ascii) :
  includes s c = false <-> ~ In c s.
Proof.
  rewrite <- includes_In. destruct (includes s c); split; congruence.
Qed.

Lemma indexOf_bounds (s : list ascii) (c : ascii) :
  -1 <= indexOf s c < Z.of_nat (List.length s).
Proof.
  induction s as [|x s IH]; simpl indexOf; simpl List.length.
  - lia.
  - destruct (Ascii.eqb x c); [lia|]. unfold shiftIndex.
    destruct (Z.ltb_spec (indexOf s c) 0); lia.
Qed.

Lemma charAt_cons_succ (x : ascii) (s : list ascii) (i : Z) :
  0 <= i -> charAt (x :: s) (i + 1) = charAt s i.
Proof.
  intros Hi. unfold charAt.
  destruct (Z.ltb_spec (i + 1) 0); [lia|].
  destruct (Z.ltb_spec i 0); [lia|].
  replace (Z.to_nat (i + 1)) with (S (Z.to_nat i)) by lia. reflexivity.
Qed.

Lemma indexOf_found (s : list ascii) (c : ascii) :
  In c s -> 0 <= indexOf s c /\ charAt s (indexOf s c) = Ok c.
Proof.
  induction s as [|x s IH]; simpl In; [tauto|].
  intros Hin. simpl indexOf.
  destruct (Ascii.eqb_spec x c) as [->|Hne].
  - split; [lia | reflexivity].
  - destruct Hin as [Heq|Hin]; [congruence|].
    destruct (IH Hin) as [Hge Hat]. unfold shiftIndex.
    destruct (Z.ltb_spec (indexOf s c) 0); [lia|].
    split; [lia|]. now rewrite charAt_cons_succ.
Qed.


Lemma charAt_Ok (s : list ascii) (i : Z) (c : ascii) :
  charAt s i = Ok c -> 0 <= i < Z.of_nat (List.length s) /\ In c s.
Proof.
  unfold charAt. destruct (Z.ltb_spec i 0); [discriminate|].
  destruct (nth_error s (Z.to_nat i)) as [d|] eqn:E; [|discriminate].
  intros [= <-]. split.
  - assert (Z.to_nat i < List.length s)%nat
      by (apply nth_error_Some; congruence). lia.
  - eapply nth_error_In; eassumption.
Qed.

Lemma charAt_range (s : list ascii) (i : Z) :
  0 <= i < Z.of_nat (List.length s) -> exists c, charAt s i = Ok c.
Proof.
  intros Hi. unfold charAt. destruct (Z.ltb_spec i 0); [lia|].
  destruct (nth_error s (Z.to_nat i)) as [d|] eqn:E.
  - now exists d.
  - apply nth_error_None in E. lia.
Qed.

Lemma indexOf_charAt (s : list ascii) (i : Z) (c : ascii) :
  NoDup s -> charAt s i = Ok c -> indexOf s c = i.
Proof.
  intros Hnd. revert i. induction Hnd as [|x s Hx Hnd IH]; intros i Hat.
  - apply charAt_Ok in Hat. simpl in Hat. lia.
  - simpl indexOf. destruct (Z.eq_dec i 0) as [->|Hi].
    + cbn in Hat. injection Hat as ->. now rewrite Ascii.eqb_refl.
    + destruct (charAt_Ok _ _ _ Hat) as [Hr _].
      replace i with ((i - 1) + 1) in Hat by lia.
      rewrite charAt_cons_succ in Hat by lia.
      destruct (Ascii.eqb_spec x c) as [->|Hne].
      * apply charAt_Ok in Hat. tauto.
      * rewrite (IH _ Hat). unfold shiftIndex.
        destruct (Z.ltb_spec (i - 1) 0); lia.
Qed.

Lemma nodupb_NoDup (l : list ascii) : nodupb l = true -> NoDup l.
Proof.
  induction l as [|x l IH]; simpl; intros H; constructor.
  - apply andb_prop in H. destruct H as [H _].
    apply negb_true_iff in H. now apply includes_false.
  - apply IH. apply andb_prop in H. tauto.
Qed.


Lemma alphabet_NoDup : NoDup alphabet.
Proof. apply nodupb_NoDup. reflexivity. Qed.

Lemma alphabet_length : List.length alphabet = 26%nat.
Proof. reflexivity. Qed.

(** The index of a letter is in 0..25 and leads back to the letter. *)
Lemma letter_index (c : ascii) :
  In c alphabet ->
  0 <= indexOf alphabet c < 26 /\ charAt alphabet (indexOf alphabet c) = Ok c.
Proof.
  intros Hc. destruct (indexOf_found _ _ Hc) as [Hge Hat].
  pose proof (indexOf_bounds alphabet c) as Hb.
  rewrite alphabet_length in Hb. split; [lia | assumption].
Qed.

(** Every index in 0..25 holds a letter whose index it is. *)
Lemma index_letter (i : Z) :
  0 <= i < 26 ->
  exists c, charAt alphabet i = Ok c /\ In c alphabet /\ indexOf alphabet c = i.
Proof.
  intros Hi. destruct (charAt_range alphabet i) as [c Hc].
  - rewrite alphabet_length. lia.
  - exists c. split; [assumption|]. split.
    + apply (charAt_Ok _ _ _ Hc).
    + apply indexOf_charAt; [apply alphabet_NoDup | assumption].
Qed.

(** ** Wirings *)

Lemma validWiring_spec (w : list ascii) :
  validWiring w = true ->
  List.length w = 26%nat /\ NoDup w /\ (forall c, In c w <-> In c alphabet).
Proof.
  unfold validWiring. intros H. apply andb_prop in H. destruct H as [Hlen Hall].
  apply Nat.eqb_eq in Hlen.
  assert (Hincl : incl alphabet w).
  { intros c Hc. rewrite forallb_forall in Hall.
    apply includes_In. now apply Hall. }
  assert (Hle : (List.length w <= List.length alphabet)%nat)
    by (rewrite alphabet_length; lia).
  split; [assumption|]. split.
  - apply (NoDup_incl_NoDup alphabet_NoDup Hle Hincl).
  - intros c. split.
    + apply (NoDup_length_incl alphabet_NoDup Hle Hincl).
    + apply Hincl.
Qed.

(** ** Rotor: the two passes are inverse permutations of the alphabet *)

Lemma shift_there_back (a off : Z) :
  0 <= a < 26 -> ((a + off) mod 26 - off) mod 26 = a.
Proof.
  intros Ha. rewrite Zminus_mod_idemp_l.
  replace (a + off - off) with a by lia. now apply Z.mod_small.
Qed.

Lemma shift_back_there (a off : Z) :
  0 <= a < 26 -> ((a - off) mod 26 + off) mod 26 = a.
Proof.
  intros Ha. rewrite Zplus_mod_idemp_l.
  replace (a - off + off) with a by lia. now apply Z.mod_small.
Qed.

Lemma mod26_range (a : Z) : 0 <= a mod 26 < 26.
Proof. apply Z.mod_pos_bound. lia. Qed.

Section RotorFacts.

Variable r : Rotor.
Hypothesis Hw : validWiring (wiring r) = true.

Lemma wiring_at (i : Z) :
  0 <= i < 26 ->
  exists w, charAt (wiring r) i = Ok w /\ In w alphabet
            /\ indexOf (wiring r) w = i.
Proof.
  destruct (validWiring_spec _ Hw) as [Hlen [Hnd Hsame]].
  intros Hi. destruct (charAt_range (wiring r) i) as [w Hat].
  - rewrite Hlen. lia.
  - exists w. split; [assumption|]. split.
    + apply Hsame. apply (charAt_Ok _ _ _ Hat).
    + now apply indexOf_charAt.
Qed.

Lemma wiring_index (a : ascii) :
  In a alphabet ->
  0 <= indexOf (wiring r) a < 26
  /\ charAt (wiring r) (indexOf (wiring r) a) = Ok a.
Proof.
  destruct (validWiring_spec _ Hw) as [Hlen [Hnd Hsame]].
  intros Ha. apply Hsame in Ha.
  destruct (indexOf_found _ _ Ha) as [Hge Hat].
  pose proof (indexOf_bounds (wiring r) a) as Hb. rewrite Hlen in Hb.
  split; [lia | assumption].
Qed.

Lemma forward_then_backward (c : ascii) :
  In c alphabet ->
  exists d, RotorOps.forward r c = Ok d /\ In d alphabet
            /\ RotorOps.backward r d = Ok c.
Proof.
  intros Hc. destruct (letter_index c Hc) as [Hci Hcat].
  set (off := RotorOps.offset r).
  destruct (wiring_at ((indexOf alphabet c + off) mod 26) (mod26_range _))
    as [w [Hwat [Hwin Hwidx]]].
  destruct (letter_index w Hwin) as [Hwi Hwback].
  destruct (index_letter ((indexOf alphabet w - off) mod 26) (mod26_range _))
    as [d [Hdat [Hdin Hdidx]]].
  exists d. split; [|split].
  - unfold RotorOps.forward. fold off. rewrite Hwat. exact Hdat.
  - exact Hdin.
  - unfold RotorOps.backward. fold off.
    rewrite Hdidx, shift_back_there by assumption.
    rewrite Hwback. cbn [bind]. rewrite Hwidx.
    rewrite shift_there_back by assumption. exact Hcat.
Qed.

Lemma backward_then_forward (c : ascii) :
  In c alphabet ->
  exists d, RotorOps.backward r c = Ok d /\ In d alphabet
            /\ RotorOps.forward r d = Ok c.
Proof.
  intros Hc. destruct (letter_index c Hc) as [Hci Hcat].
  set (off := RotorOps.offset r).
  destruct (index_letter ((indexOf alphabet c + off) mod 26) (mod26_range _))
    as [a [Haat [Hain Haidx]]].
  destruct (wiring_index a Hain) as [Hki Hkat].
  destruct (index_letter ((indexOf (wiring r) a - off) mod 26) (mod26_range _))
    as [d [Hdat [Hdin Hdidx]]].
  exists d. split; [|split].
  - unfold RotorOps.backward. fold off. rewrite Haat. exact Hdat.
  - exact Hdin.
  - unfold RotorOps.forward. fold off.
    rewrite Hdidx, shift_back_there by assumption.
    rewrite Hkat. cbn [bind]. rewrite Haidx.
    rewrite shift_there_back by assumption. exact Hcat.
Qed.

End RotorFacts.

(** The rotor chain: [backwardAll] undoes [forwardAll] and conversely. *)
Lemma forwardAll_then_backwardAll (rs : list Rotor) (c : ascii) :
  forallb (fun r => validWiring (wiring r)) rs = true ->
  In c alphabet ->
  exists d, forwardAll rs c = Ok d /\ In d alphabet /\ backwardAll rs d = Ok c.
Proof.
  intros Hrs Hc. induction rs as [|r rs IH]; simpl.
  - exists c. auto.
  - simpl in Hrs. apply andb_prop in Hrs. destruct Hrs as [Hr Hrs].
    destruct (IH Hrs) as [e [Hfe [He Hbe]]].
    destruct (forward_then_backward r Hr e He) as [d [Hfd [Hd Hbd]]].
    exists d. rewrite Hfe. cbn [bind]. rewrite Hbd. cbn [bind]. auto.
Qed.

Lemma backwardAll_then_forwardAll (rs : list Rotor) (c : ascii) :
  forallb (fun r => validWiring (wiring r)) rs = true ->
  In c alphabet ->
  exists d, backwardAll rs c = Ok d /\ In d alphabet /\ forwardAll rs d = Ok c.
Proof.
  intros Hrs. revert c. induction rs as [|r rs IH]; intros c Hc; simpl.
  - exists c. auto.
  - simpl in Hrs. apply andb_prop in Hrs. destruct Hrs as [Hr Hrs].
    destruct (backward_then_forward r Hr c Hc) as [e [Hbe [He Hfe]]].
    destruct (IH Hrs e He) as [d [Hbd [Hd Hfd]]].
    exists d. rewrite Hbe. cbn [bind]. rewrite Hfd. cbn [bind]. auto.
Qed.

(** ** Plugboard *)

Lemma plugboardSwap_outside (c : ascii) (ps : list (ascii * ascii)) :
  ~ In c (lettersOf ps) -> plugboardSwap c ps = c.
Proof.
  induction ps as [|[a b] ps IH]; simpl; [reflexivity|].
  intros Hn. destruct (Ascii.eqb_spec c a) as [->|Ha]; [tauto|].
  destruct (Ascii.eqb_spec c b) as [->|Hb]; [tauto|].
  apply IH. tauto.
Qed.

Lemma plugboardSwap_image (c : ascii) (ps : list (ascii * ascii)) :
  plugboardSwap c ps = c \/ In (plugboardSwap c ps) (lettersOf ps).
Proof.
  induction ps as [|[a b] ps IH]; simpl; [now left|].
  destruct (Ascii.eqb c a); [right; tauto|].
  destruct (Ascii.eqb c b); [right; tauto|].
  destruct IH as [IH|IH]; [now left | right; tauto].
Qed.

Lemma plugboardSwap_twice (c : ascii) (ps : list (ascii * ascii)) :
  disjointPairs ps = true -> plugboardSwap (plugboardSwap c ps) ps = c.
Proof.
  induction ps as [|[a b] ps IH]; simpl; [reflexivity|].
  intros H. apply andb_prop in H. destruct H as [H Hps].
  apply andb_prop in H. destruct H as [Ha Hb].
  apply negb_true_iff, includes_false in Ha.
  apply negb_true_iff, includes_false in Hb.
  destruct (Ascii.eqb_spec c a) as [->|Hca].
  - destruct (Ascii.eqb_spec b a) as [->|Hba]; [reflexivity|].
    now rewrite Ascii.eqb_refl.
  - destruct (Ascii.eqb_spec c b) as [->|Hcb].
    + now rewrite Ascii.eqb_refl.
    + assert (Hda : plugboardSwap c ps <> a).
      { destruct (plugboardSwap_image c ps) as [E|E]; congruence. }
      assert (Hdb : plugboardSwap c ps <> b).
      { destruct (plugboardSwap_image c ps) as [E|E]; congruence. }
      apply Ascii.eqb_neq in Hda, Hdb. rewrite Hda, Hdb. now apply IH.
Qed.

Lemma plugboardSwap_letter (c : ascii) (ps : list (ascii * ascii)) :
  forallb isLetter (lettersOf ps) = true ->
  In c alphabet -> In (plugboardSwap c ps) alphabet.
Proof.
  intros Hall Hc. destruct (plugboardSwap_image c ps) as [E|E].
  - now rewrite E.
  - rewrite forallb_forall in Hall. apply includes_In. now apply Hall.
Qed.

Lemma nodupb_disjointPairs (ps : list (ascii * ascii)) :
  nodupb (lettersOf ps) = true -> disjointPairs ps = true.
Proof.
  induction ps as [|[a b] ps IH]; cbn [lettersOf nodupb disjointPairs];
    [reflexivity|].
  intros H. apply andb_prop in H. destruct H as [Ha H].
  apply andb_prop in H. destruct H as [Hb Hps].
  rewrite (IH Hps), Hb, andb_true_r, andb_true_r.
  apply negb_true_iff. apply negb_true_iff in Ha.
  apply includes_false. apply includes_false in Ha.
  intros Hin. apply Ha. now right.
Qed.

(** ** Reflector *)

Lemma validReflector_spec (R : list ascii) (c : ascii) :
  validReflector R = true -> In c alphabet ->
  exists d, reflect R c = Ok d /\ In d alphabet /\ d <> c
            /\ reflect R d = Ok c.
Proof.
  unfold validReflector. rewrite forallb_forall. intros H Hc.
  specialize (H c Hc). destruct (reflect R c) as [d|] eqn:Ed; [|discriminate].
  apply andb_prop in H. destruct H as [H Hback].
  apply andb_prop in H. destruct H as [Hd Hne].
  destruct (reflect R d) as [e|] eqn:Ee; [|discriminate].
  apply Ascii.eqb_eq in Hback. subst e.
  exists d. split; [reflexivity|]. split; [now apply includes_In|].
  split; [|exact Ee].
  apply negb_true_iff in Hne. now apply Ascii.eqb_neq.
Qed.

(** ** Stepping *)

Lemma stepAt_length (rs : list Rotor) (i : nat) :
  List.length (stepAt rs i) = List.length rs.
Proof.
  revert i. induction rs as [|r rs IH]; intros [|i]; simpl; auto.
Qed.

Lemma stepAt_wirings (rs : list Rotor) (i : nat) :
  map wiring (stepAt rs i) = map wiring rs.
Proof.
  revert i. induction rs as [|r rs IH]; intros [|i]; simpl; auto.
  now rewrite IH.
Qed.



Lemma validWirings_map (rs rs' : list Rotor) :
  map wiring rs' = map wiring rs ->
  forallb (fun r => validWiring (wiring r)) rs'
  = forallb (fun r => validWiring (wiring r)) rs.
Proof.
  revert rs'. induction rs as [|r rs IH]; intros [|r' rs']; simpl;
    try discriminate; [reflexivity|].
  intros [= Hr Hrs]. now rewrite Hr, (IH _ Hrs).
Qed.

Lemma stepRotor_valid (m : Enigma) (i : nat) :
  validMachine (stepRotor m i) = validMachine m.
Proof.
  unfold validMachine, stepRotor. simpl.
  now rewrite stepAt_length, (validWirings_map _ _ (stepAt_wirings _ i)).
Qed.

Lemma stepRotor_pairs (m : Enigma) (i : nat) :
  plugboardPairs (stepRotor m i) = plugboardPairs m.
Proof. reflexivity. Qed.

Lemma validMachine_three (m : Enigma) :
  validMachine m = true ->
  exists r0 r1 r2 rest, rotors m = r0 :: r1 :: r2 :: rest.
Proof.
  unfold validMachine. intros H.
  repeat (apply andb_prop in H; destruct H as [H _]).
  apply Nat.leb_le in H.
  destruct (rotors m) as [|r0 [|r1 [|r2 rest]]]; simpl in H; try lia.
  now exists r0, r1, r2, rest.
Qed.

(** Stepping a machine with at least three rotors returns, and changes
    neither the tables nor the plugboard. *)
Lemma stepRotors_valid (m : Enigma) :
  validMachine m = true ->
  exists m', stepRotors m = Ok m' /\ validMachine m' = true
             /\ plugboardPairs m' = plugboardPairs m.
Proof.
  intros Hm. destruct (validMachine_three m Hm) as (r0 & r1 & r2 & rest & E).
  unfold stepRotors, rotorAt. rewrite E. cbn [nth_error bind].
  eexists. split; [reflexivity|].
  destruct (RotorOps.atNotch r2), (RotorOps.atNotch r1);
    rewrite ?stepRotor_valid, ?stepRotor_pairs; auto.
Qed.

(** ** Signal path and per-character encryption *)

Lemma validMachine_parts (m : Enigma) :
  validMachine m = true ->
  forallb (fun r => validWiring (wiring r)) (rotors m) = true
  /\ forallb isLetter (lettersOf (plugboardPairs m)) = true
  /\ disjointPairs (plugboardPairs m) = true.
Proof.
  unfold validMachine. intros H.
  apply andb_prop in H. destruct H as [H Hd].
  apply andb_prop in H. destruct H as [H Hl].
  apply andb_prop in H. tauto.
Qed.

Section SignalPath.

Variable REFLECTOR : list ascii.
Hypothesis HR : validReflector REFLECTOR = true.

(** At a fixed rotor state the signal path is an involution of the
    alphabet without fixed point. *)
Lemma signalPath_involution (m : Enigma) (c : ascii) :
  validMachine m = true -> In c alphabet ->
  exists d, signalPath REFLECTOR m c = Ok d /\ In d alphabet /\ d <> c
            /\ signalPath REFLECTOR m d = Ok c.
Proof.
  intros Hm Hc. destruct (validMachine_parts m Hm) as [Hrs [Hl Hd]].
  pose proof (plugboardSwap_letter c _ Hl Hc) as Hc1.
  destruct (forwardAll_then_backwardAll (rotors m) _ Hrs Hc1)
    as [c2 [Hf2 [Hc2 Hb2]]].
  destruct (validReflector_spec REFLECTOR c2 HR Hc2)
    as [c3 [Hr3 [Hc3 [Hne Hr2]]]].
  destruct (backwardAll_then_forwardAll (rotors m) c3 Hrs Hc3)
    as [c4 [Hb4 [Hc4 Hf4]]].
  exists (plugboardSwap c4 (plugboardPairs m)). split; [|split; [|split]].
  - unfold signalPath. rewrite Hf2. cbn [bind]. rewrite Hr3. cbn [bind].
    now rewrite Hb4.
  - now apply plugboardSwap_letter.
  - intros E.
    assert (E4 : c4 = plugboardSwap c (plugboardPairs m)).
    { rewrite <- E. now rewrite plugboardSwap_twice. }
    rewrite <- E4 in Hf2. congruence.
  - unfold signalPath. rewrite plugboardSwap_twice by assumption.
    rewrite Hf4. cbn [bind]. rewrite Hr2. cbn [bind]. rewrite Hb2.
    cbn [bind]. now rewrite plugboardSwap_twice.
Qed.

Lemma encryptChar_other (m : Enigma) (c : ascii) :
  ~ In c alphabet -> encryptChar REFLECTOR m c = Ok (m, c).
Proof.
  intros Hc. unfold encryptChar.
  apply includes_false in Hc. now rewrite Hc.
Qed.

(** On a letter: the machine steps, the output is another letter, and the
    same machine on that output gives the letter back. *)
Lemma encryptChar_letter (m : Enigma) (c : ascii) :
  validMachine m = true -> In c alphabet ->
  exists m' d,
    stepRotors m = Ok m' /\ validMachine m' = true
    /\ encryptChar REFLECTOR m c = Ok (m', d)
    /\ In d alphabet /\ d <> c
    /\ encryptChar REFLECTOR m d = Ok (m', c).
Proof.
  intros Hm Hc.
  destruct (stepRotors_valid m Hm) as [m' [Hs [Hm' _]]].
  destruct (signalPath_involution m' c Hm' Hc) as [d [Hp [Hd [Hne Hq]]]].
  exists m', d. split; [assumption|]. split; [assumption|].
  unfold encryptChar.
  apply includes_In in Hc. rewrite Hc. cbn [negb].
  pose proof Hd as Hd'. apply includes_In in Hd'. rewrite Hd'. cbn [negb].
  rewrite Hs. cbn [bind]. rewrite Hp, Hq. cbn [bind]. auto.
Qed.

(** ** Messages *)

Lemma upper_letter (c : ascii) : In c alphabet -> upper c = c.
Proof.
  intros Hc. cbv [alphabet chars list_ascii_of_string In] in Hc.
  repeat (destruct Hc as [<-|Hc]; [reflexivity|]). contradiction.
Qed.

(** A message through a well-formed machine: the output has one character
    per input character, and the same machine on the output gives the
    input back and ends in the same state. *)
Lemma processChars_involution (cs : list ascii) (m : Enigma) :
  validMachine m = true ->
  exists m' out,
    processChars REFLECTOR m cs = Ok (m', out)
    /\ validMachine m' = true
    /\ List.length out = List.length cs
    /\ (Forall (fun c => upper c = c) cs -> Forall (fun c => upper c = c) out)
    /\ processChars REFLECTOR m out = Ok (m', cs).
Proof.
  revert m. induction cs as [|c cs IH]; intros m Hm.
  - exists m, []. cbn. auto.
  - destruct (in_dec ascii_dec c alphabet) as [Hc|Hc].
    + destruct (encryptChar_letter m c Hm Hc)
        as (m1 & d & _ & Hm1 & He & Hd & _ & Hback).
      destruct (IH m1 Hm1) as (m2 & out & Hp & Hm2 & Hlen & Hup & Hq).
      exists m2, (d :: out). cbn [processChars].
      rewrite He, Hback. cbn [bind]. rewrite Hp, Hq. cbn [bind].
      repeat split; auto.
      * cbn. now rewrite Hlen.
      * intros Hall. inversion Hall; subst.
        constructor; [now apply upper_letter | auto].
    + destruct (IH m Hm) as (m2 & out & Hp & Hm2 & Hlen & Hup & Hq).
      exists m2, (c :: out). cbn [processChars].
      rewrite (encryptChar_other m c Hc). cbn [bind]. rewrite Hp, Hq.
      cbn [bind]. repeat split; auto.
      * cbn. now rewrite Hlen.
      * intros Hall. inversion Hall; subst. constructor; auto.
Qed.

End SignalPath.

Lemma upper_idempotent (c : ascii) : upper (upper c) = upper c.
Proof.
  destruct c as [[] [] [] [] [] [] [] []]; reflexivity.
Qed.

Lemma chars_of_list (l : list ascii) : chars (string_of_list_ascii l) = l.
Proof. apply list_ascii_of_string_of_list_ascii. Qed.

Lemma chars_toUpperCase (s : string) :
  chars (toUpperCase s) = map upper (chars s).
Proof.
  unfold toUpperCase, chars. apply list_ascii_of_string_of_list_ascii.
Qed.

Lemma toUpperCase_idempotent (s : string) :
  toUpperCase (toUpperCase s) = toUpperCase s.
Proof.
  unfold toUpperCase at 1. rewrite chars_toUpperCase, map_map.
  unfold toUpperCase. f_equal. apply map_ext. apply upper_idempotent.
Qed.

Lemma map_upper_fixed (l : list ascii) :
  Forall (fun c => upper c = c) l -> map upper l = l.
Proof.
  induction 1 as [|c l Hc Hl IH]; simpl; congruence.
Qed.

(** ** Construction *)

Section ConstructFacts.

Variable ROTORS : list (list ascii * ascii).

Lemma catalogAt_In (id : Z) (e : list ascii * ascii) :
  catalogAt ROTORS id = Ok e -> In e ROTORS.
Proof.
  unfold catalogAt. destruct (id <? 0); [discriminate|].
  destruct (nth_error ROTORS (Z.to_nat id)) as [x|] eqn:E; [|discriminate].
  intros [= <-]. eapply nth_error_In; eassumption.
Qed.


Lemma buildRotors_valid (ids pos rings : list Z) (rs : list Rotor) :
  validCatalog ROTORS = true ->
  buildRotors ROTORS ids pos rings = Ok rs ->
  forallb (fun r => validWiring (wiring r)) rs = true
  /\ List.length rs = List.length ids.
Proof.
  intros Hcat. revert pos rings rs.
  induction ids as [|id ids IH]; intros pos rings rs.
  - intros [= <-]. auto.
  - destruct pos as [|p pos], rings as [|r rings]; cbn [buildRotors];
      try discriminate.
    destruct (catalogAt ROTORS id) as [e|] eqn:Ee; [|discriminate].
    cbn [bind].
    destruct (buildRotors ROTORS ids pos rings) as [rest|] eqn:Er;
      [|discriminate].
    cbn [bind]. intros [= <-]. destruct (IH _ _ _ Er) as [Hv Hl].
    split; [|cbn; now rewrite Hl].
    cbn [forallb wiring]. rewrite Hv, andb_true_r.
    unfold validCatalog in Hcat. rewrite forallb_forall in Hcat.
    apply Hcat. now apply catalogAt_In with id.
Qed.

(** A machine the constructor returns is well formed. *)
Lemma construct_valid (cfg : Config) (m : Enigma) :
  validCatalog ROTORS = true ->
  construct ROTORS cfg = Ok m -> validMachine m = true.
Proof.
  intros Hcat. unfold construct.
  destruct (_ && _ && _) eqn:Elen; [|discriminate]. cbn [negb].
  destruct (forallb inRange _ && forallb inRange _) eqn:Erange;
    [|discriminate]. cbn [negb].
  destruct (plugboardOk (pairs cfg)) eqn:Eplug; [|discriminate]. cbn [negb].
  destruct (buildRotors _ _ _ _) as [rs|] eqn:Ers; [|discriminate].
  cbn [bind]. intros [= <-].
  destruct (buildRotors_valid _ _ _ _ Hcat Ers) as [Hv Hl].
  apply andb_prop in Elen. destruct Elen as [Elen _].
  apply andb_prop in Elen. destruct Elen as [Elen _].
  apply Nat.eqb_eq in Elen.
  unfold plugboardOk in Eplug. apply andb_prop in Eplug.
  destruct Eplug as [Hlet Hnd].
  unfold validMachine. cbn [rotors plugboardPairs].
  rewrite Hv, Hlet, (nodupb_disjointPairs _ Hnd), Hl, Elen. reflexivity.
Qed.

End ConstructFacts.

Lemma inPair_lettersOf (ps : list (ascii * ascii)) (i : nat)
      (p : ascii * ascii) (x : ascii) :
  nth_error ps i = Some p -> inPair x p -> In x (lettersOf ps).
Proof.
  revert i. induction ps as [|[a b] ps IH]; intros [|i]; simpl;
    try discriminate.
  - intros [= <-]. unfold inPair. simpl. intuition.
  - intros Hn Hp. right. right. eapply IH; eassumption.
Qed.

Lemma shared_letter_same_pair (ps : list (ascii * ascii)) (i j : nat)
      (p q : ascii * ascii) (x : ascii) :
  NoDup (lettersOf ps) ->
  nth_error ps i = Some p -> nth_error ps j = Some q ->
  inPair x p -> inPair x q -> i = j.
Proof.
  revert i j. induction ps as [|[a b] ps IH]; intros i j Hnd Hi Hj Hp Hq.
  - destruct i; discriminate.
  - cbn [lettersOf] in Hnd.
    inversion Hnd as [|? ? Ha Hnd1]; subst.
    inversion Hnd1 as [|? ? Hb Hnd2]; subst.
    assert (Hhead : forall k r,
               nth_error ps k = Some r -> inPair x r ->
               inPair x (a, b) -> False).
    { intros k r Hk Hr [E|E]; cbn in E; subst x;
        pose proof (inPair_lettersOf _ _ _ _ Hk Hr) as Hin.
      - apply Ha. now right.
      - now apply Hb. }
    destruct i as [|i], j as [|j]; cbn in Hi, Hj.
    + reflexivity.
    + injection Hi as <-. exfalso. eapply Hhead; eassumption.
    + injection Hj as <-. exfalso. eapply Hhead; eassumption.
    + f_equal. eapply IH; eassumption.
Qed.

(** ** Messages, stepping and case *)

Lemma process_returns (R : list ascii) (m : Enigma) (text : string) :
  validReflector R = true -> validMachine m = true ->
  exists m' out,
    processChars R m (chars (toUpperCase text)) = Ok (m', out)
    /\ process R m text = Ok (m', string_of_list_ascii out)
    /\ validMachine m' = true
    /\ List.length out = List.length (chars text)
    /\ map upper out = out
    /\ processChars R m out = Ok (m', chars (toUpperCase text)).
Proof.
  intros HR Hm.
  destruct (processChars_involution R HR (chars (toUpperCase text)) m Hm)
    as (m' & out & Hp & Hm' & Hlen & Hup & Hq).
  exists m', out. unfold process. rewrite Hp. cbn [bind].
  repeat split; auto.
  - rewrite Hlen, chars_toUpperCase. apply length_map.
  - apply map_upper_fixed, Hup. rewrite chars_toUpperCase.
    apply Forall_forall. intros c Hc. apply in_map_iff in Hc.
    destruct Hc as [x [<- _]]. apply upper_idempotent.
Qed.

Lemma stepRotors_three (m : Enigma) (r0 r1 r2 : Rotor) (rest : list Rotor) :
  rotors m = r0 :: r1 :: r2 :: rest ->
  stepRotors m
  = Ok (mkEnigma
          ((if RotorOps.atNotch r1 then RotorOps.step r0 else r0)
           :: (if RotorOps.atNotch r1
               then RotorOps.step
                      (if RotorOps.atNotch r2 then RotorOps.step r1 else r1)
               else if RotorOps.atNotch r2 then RotorOps.step r1 else r1)
           :: RotorOps.step r2 :: rest)
          (plugboardPairs m)).
Proof.
  intros E. unfold stepRotors, rotorAt. rewrite E. cbn [nth_error bind].
  destruct (RotorOps.atNotch r2), (RotorOps.atNotch r1);
    unfold stepRotor; cbn [rotors plugboardPairs]; rewrite ?E; reflexivity.
Qed.

(** With the middle rotor at its notch and the right rotor off its notch,
    one call of [stepRotors] moves each of the three rotors by one. *)
Lemma double_step_right_off_notch
      (m : Enigma) (r0 r1 r2 : Rotor) (rest : list Rotor) :
  rotors m = r0 :: r1 :: r2 :: rest ->
  RotorOps.atNotch r1 = true -> RotorOps.atNotch r2 = false ->
  exists m', stepRotors m = Ok m'
             /\ rotors m'
                = RotorOps.step r0 :: RotorOps.step r1 :: RotorOps.step r2
                                   :: rest.
Proof.
  intros E H1 H2. rewrite (stepRotors_three m _ _ _ _ E), H1, H2.
  eexists. split; reflexivity.
Qed.

(** With both the middle and the right rotor at their notches, the middle
    rotor is stepped twice. *)
Lemma double_step_right_at_notch
      (m : Enigma) (r0 r1 r2 : Rotor) (rest : list Rotor) :
  rotors m = r0 :: r1 :: r2 :: rest ->
  RotorOps.atNotch r1 = true -> RotorOps.atNotch r2 = true ->
  exists m', stepRotors m = Ok m'
             /\ rotors m'
                = RotorOps.step r0 :: RotorOps.step (RotorOps.step r1)
                                   :: RotorOps.step r2 :: rest.
Proof.
  intros E H1 H2. rewrite (stepRotors_three m _ _ _ _ E), H1, H2.
  eexists. split; reflexivity.
Qed.

Lemma processChars_passthrough (R : list ascii) (cs : list ascii) :
  forall (m m' : Enigma) (out : list ascii),
    processChars R m cs = Ok (m', out) ->
    forall (i : nat) (c : ascii),
      nth_error cs i = Some c -> ~ In c alphabet -> nth_error out i = Some c.
Proof.
  induction cs as [|c0 cs IH]; intros m m' out Hp i c Hi Hc.
  - destruct i; discriminate.
  - cbn [processChars] in Hp.
    destruct (encryptChar R m c0) as [[m1 c']|] eqn:He; [|discriminate].
    cbn [bind] in Hp.
    destruct (processChars R m1 cs) as [[m2 o]|] eqn:Hq; [|discriminate].
    cbn [bind] in Hp. injection Hp as <- <-.
    destruct i as [|i]; cbn in Hi |- *.
    + injection Hi as ->. rewrite (encryptChar_other R m c Hc) in He.
      now injection He as _ <-.
    + eapply IH; eassumption.
Qed.

Lemma upper_not_lower (c : ascii) : isLower c = false -> upper c = c.
Proof. unfold upper. now intros ->. Qed.

Lemma upper_fixed_not_lower (c : ascii) : upper c = c -> isLower c = false.
Proof.
  destruct c as [[] [] [] [] [] [] [] []]; intros H;
    first [reflexivity | discriminate H].
Qed.

Lemma lower_not_letter (c : ascii) : isLower c = true -> isLetter c = false.
Proof.
  destruct c as [[] [] [] [] [] [] [] []]; intros H;
    first [reflexivity | discriminate H].
Qed.

Lemma lower_upper_differs (c : ascii) : isLower c = true -> upper c <> c.
Proof.
  intros H E. apply upper_fixed_not_lower in E. congruence.
Qed.

Lemma map_fixed_In (l : list ascii) (c : ascii) :
  map upper l = l -> In c l -> upper c = c.
Proof.
  induction l as [|x l IH]; simpl; [tauto|].
  intros [= Hx Hl] [<-|Hin]; auto.
Qed.

(** ** The expectations of [enigma.test.js], replayed on the model *)

Example test_forward_substitution :
  RotorOps.forward (mkRotor (chars "EKMFLGDQVZNTOWYHXUSPAIBRCJ") "Q" 0 0) "A"
  = Ok "E"%char.
Proof. reflexivity. Qed.

Example test_backward_substitution :
  RotorOps.backward (mkRotor (chars "EKMFLGDQVZNTOWYHXUSPAIBRCJ") "Q" 0 0) "E"
  = Ok "A"%char.
Proof. reflexivity. Qed.

Example test_step_rotor :
  position (RotorOps.step (mkRotor alphabet "A" 0 0)) = 1
  /\ position (RotorOps.step (mkRotor alphabet "A" 0 25)) = 0.
Proof. split; reflexivity. Qed.

Example test_notch_position :
  RotorOps.atNotch (mkRotor alphabet "E" 0 4) = true
  /\ RotorOps.atNotch (RotorOps.step (mkRotor alphabet "E" 0 4)) = false.
Proof. split; reflexivity. Qed.

Example test_plugboardSwap :
  map (fun c => plugboardSwap c [("A", "B"); ("C", "D")]%char)
      (chars "ABCDE")
  = chars "BADCE".
Proof. reflexivity. Qed.

Example test_double_stepping :
  exists m' c,
    encryptChar Historical.REFLECTOR (Historical.machine 0 4 4 []) "A"
    = Ok (m', c)
    /\ map position (rotors m') = [1; 5; 5].
Proof. do 2 eexists. split; vm_compute; reflexivity. Qed.

Example test_spaces_and_numbers :
  process Historical.REFLECTOR (Historical.machine 0 0 0 []) "123 456"
  = Ok (Historical.machine 0 0 0 [], "123 456"%string).
Proof. vm_compute. reflexivity. Qed.

Example test_plugboard_round_trip :
  exists m1 m2 X,
    process Historical.REFLECTOR
            (Historical.machine 0 0 0 [("A", "B"); ("C", "D")]%char) "ABCD"
    = Ok (m1, X)
    /\ X <> "ABCD"%string
    /\ process Historical.REFLECTOR
               (Historical.machine 0 0 0 [("A", "B"); ("C", "D")]%char) X
       = Ok (m2, "ABCD"%string).
Proof.
  do 3 eexists. split; [vm_compute; reflexivity|].
  split; [discriminate | vm_compute; reflexivity].
Qed.

(** * The claims *)

(** C1, as stated, fails on a message with a lowercase letter: on the
    machine of rotors I, II, III at positions 0, 0, 0 the message [hello]
    encrypts to [ILBDA], and a fresh machine of the same configuration
    turns [ILBDA] into [HELLO], which is not the message. *)
Lemma C1_round_trip_lowercase_counterexample :
  exists m m1 m2,
    construct Historical.ROTORS (Historical.config [0; 0; 0] [0; 0; 0] [])
    = Ok m
    /\ process Historical.REFLECTOR m "hello" = Ok (m1, "ILBDA"%string)
    /\ process Historical.REFLECTOR m "ILBDA" = Ok (m2, "HELLO"%string)
    /\ "HELLO"%string <> "hello"%string.
Proof.
  do 3 eexists. split; [reflexivity|]. split; [vm_compute; reflexivity|].
  split; [vm_compute; reflexivity | discriminate].
Qed.

(** C1 (amended): for every configuration the constructor accepts and
    every message M, encrypting M on a freshly constructed machine and
    running the ciphertext through a second machine freshly constructed
    from the same configuration yields the uppercased M; it yields M itself
    when M has no lowercase letter. *)
Theorem C1_round_trip_uppercased
        (R : list ascii) (ROTORS : list (list ascii * ascii))
        (cfg : Config) (m : Enigma) (M : string) :
  validReflector R = true ->
  validCatalog ROTORS = true ->
  construct ROTORS cfg = Ok m ->
  exists m1 X,
    process R m M = Ok (m1, X)
    /\ process R m X = Ok (m1, toUpperCase M)
    /\ (toUpperCase M = M -> process R m X = Ok (m1, M)).
Proof.
  intros HR Hcat Hc. pose proof (construct_valid _ _ _ Hcat Hc) as Hm.
  destruct (process_returns R m M HR Hm)
    as (m1 & out & Hp & Hproc & Hm1 & Hlen & Hup & Hq).
  assert (Hback : process R m (string_of_list_ascii out)
                  = Ok (m1, toUpperCase M)).
  { unfold process. rewrite chars_toUpperCase.
    unfold chars at 1. rewrite list_ascii_of_string_of_list_ascii.
    rewrite Hup, Hq. cbn [bind]. unfold chars.
    now rewrite string_of_list_ascii_of_string. }
  exists m1, (string_of_list_ascii out).
  split; [assumption|]. split; [assumption|].
  intros E. now rewrite E in Hback.
Qed.

Lemma C1_round_trip_uppercased_witness :
  validReflector Historical.REFLECTOR = true
  /\ validCatalog Historical.ROTORS = true
  /\ construct Historical.ROTORS
               (Historical.config [0; 0; 0] [0; 0; 0]
                                  [("A", "B"); ("C", "D")]%char)
     = Ok (Historical.machine 0 0 0 [("A", "B"); ("C", "D")]%char)
  /\ exists m1 X,
      process Historical.REFLECTOR
              (Historical.machine 0 0 0 [("A", "B"); ("C", "D")]%char)
              "ABCD" = Ok (m1, X)
      /\ process Historical.REFLECTOR
                 (Historical.machine 0 0 0 [("A", "B"); ("C", "D")]%char)
                 X = Ok (m1, toUpperCase "ABCD")
      /\ (toUpperCase "ABCD" = "ABCD"%string ->
          process Historical.REFLECTOR
                  (Historical.machine 0 0 0 [("A", "B"); ("C", "D")]%char)
                  X = Ok (m1, "ABCD"%string)).
Proof.
  split; [reflexivity|]. split; [reflexivity|]. split; [reflexivity|].
  apply (C1_round_trip_uppercased
           Historical.REFLECTOR Historical.ROTORS
           (Historical.config [0; 0; 0] [0; 0; 0]
                              [("A", "B"); ("C", "D")]%char));
    reflexivity.
Defined.

(** C2, as stated, fails when the right rotor is at its notch too: the
    machine [new Enigma([0, 1, 1], [0, 4, 4], [0, 0, 0], [])] has rotor II
    in the middle and in the right slot, both at the notch [E] (index 4).
    One call of [stepRotors] moves the left rotor from 0 to 1 and the right
    rotor from 4 to 5, but the middle rotor from 4 to 6: it is stepped once
    for the right rotor's notch and once more for its own. *)
Lemma C2_double_step_both_at_notch :
  RotorOps.atNotch (mkRotor (chars "AJDKSIRUXBLHWTMCQGZNPYFVOE") "E" 0 4)
  = true
  /\ exists m',
      stepRotors
        (mkEnigma [mkRotor (chars "EKMFLGDQVZNTOWYHXUSPAIBRCJ") "Q" 0 0;
                   mkRotor (chars "AJDKSIRUXBLHWTMCQGZNPYFVOE") "E" 0 4;
                   mkRotor (chars "AJDKSIRUXBLHWTMCQGZNPYFVOE") "E" 0 4] [])
      = Ok m'
      /\ map position (rotors m') = [1; 6; 5]
      /\ 6 <> (4 + 1) mod 26.
Proof.
  split; [reflexivity|]. eexists. split; [reflexivity|].
  split; [reflexivity | discriminate].
Qed.

(** C2 (amended): whenever the middle rotor sits at its notch before any
    stepping on a keystroke and the right rotor is not at its notch, one
    call of [stepRotors] returns and advances the left, the middle and the
    right rotor each by exactly 1 modulo 26; the notch of the middle rotor
    is the one read before any rotor has moved. *)
Theorem C2_double_step_right_off_notch
        (m : Enigma) (r0 r1 r2 : Rotor) (rest : list Rotor) :
  rotors m = r0 :: r1 :: r2 :: rest ->
  RotorOps.atNotch r1 = true ->
  RotorOps.atNotch r2 = false ->
  exists m' r0' r1' r2',
    stepRotors m = Ok m'
    /\ rotors m' = r0' :: r1' :: r2' :: rest
    /\ position r0' = (position r0 + 1) mod 26
    /\ position r1' = (position r1 + 1) mod 26
    /\ position r2' = (position r2 + 1) mod 26.
Proof.
  intros E N1 N2.
  destruct (double_step_right_off_notch m r0 r1 r2 rest E N1 N2)
    as [m' [Hs Hr]].
  exists m', (RotorOps.step r0), (RotorOps.step r1), (RotorOps.step r2).
  split; [assumption|]. split; [assumption|]. repeat split.
Qed.

Lemma C2_double_step_right_off_notch_witness :
  rotors (Historical.machine 0 4 4 [])
  = [mkRotor (chars "EKMFLGDQVZNTOWYHXUSPAIBRCJ") "Q" 0 0;
     mkRotor (chars "AJDKSIRUXBLHWTMCQGZNPYFVOE") "E" 0 4;
     mkRotor (chars "BDFHJLCPRTXVZNYEIWGAKMUSQO") "V" 0 4]
  /\ RotorOps.atNotch (mkRotor (chars "AJDKSIRUXBLHWTMCQGZNPYFVOE") "E" 0 4)
     = true
  /\ RotorOps.atNotch (mkRotor (chars "BDFHJLCPRTXVZNYEIWGAKMUSQO") "V" 0 4)
     = false
  /\ exists m' r0' r1' r2',
      stepRotors (Historical.machine 0 4 4 []) = Ok m'
      /\ rotors m' = [r0'; r1'; r2']
      /\ position r0' = (0 + 1) mod 26
      /\ position r1' = (4 + 1) mod 26
      /\ position r2' = (4 + 1) mod 26.
Proof.
  split; [reflexivity|]. split; [reflexivity|]. split; [reflexivity|].
  apply (C2_double_step_right_off_notch
           (Historical.machine 0 4 4 [])
           (mkRotor (chars "EKMFLGDQVZNTOWYHXUSPAIBRCJ") "Q" 0 0)
           (mkRotor (chars "AJDKSIRUXBLHWTMCQGZNPYFVOE") "E" 0 4)
           (mkRotor (chars "BDFHJLCPRTXVZNYEIWGAKMUSQO") "V" 0 4) []);
    reflexivity.
Defined.

(** C3: on a machine built by the constructor and brought to any state by
    a prior message, [encryptChar] on an uppercase letter returns, and never
    returns that letter. *)
Theorem C3_no_fixed_points
        (R : list ascii) (ROTORS : list (list ascii * ascii))
        (cfg : Config) (m0 m : Enigma) (prior out : string) (L : ascii) :
  validReflector R = true ->
  validCatalog ROTORS = true ->
  construct ROTORS cfg = Ok m0 ->
  process R m0 prior = Ok (m, out) ->
  isLetter L = true ->
  exists m' c, encryptChar R m L = Ok (m', c) /\ c <> L.
Proof.
  intros HR Hcat Hc Hp HL.
  pose proof (construct_valid _ _ _ Hcat Hc) as Hm0.
  destruct (process_returns R m0 prior HR Hm0)
    as (m1 & o & _ & Hproc & Hm1 & _).
  rewrite Hproc in Hp. injection Hp as -> _.
  apply includes_In in HL.
  destruct (encryptChar_letter R HR m L Hm1 HL)
    as (m' & d & _ & _ & He & _ & Hne & _).
  now exists m', d.
Qed.

Lemma C3_no_fixed_points_witness :
  validReflector Historical.REFLECTOR = true
  /\ validCatalog Historical.ROTORS = true
  /\ construct Historical.ROTORS (Historical.config [0; 0; 0] [0; 0; 0] [])
     = Ok (Historical.machine 0 0 0 [])
  /\ process Historical.REFLECTOR (Historical.machine 0 0 0 []) "HELLO"
     = Ok (Historical.machine 0 0 5 [], "ILBDA"%string)
  /\ isLetter "A" = true
  /\ exists m' c,
      encryptChar Historical.REFLECTOR (Historical.machine 0 0 5 []) "A"
      = Ok (m', c)
      /\ c <> "A"%char.
Proof.
  split; [reflexivity|]. split; [reflexivity|]. split; [reflexivity|].
  split; [vm_compute; reflexivity|]. split; [reflexivity|].
  apply (C3_no_fixed_points
           Historical.REFLECTOR Historical.ROTORS
           (Historical.config [0; 0; 0] [0; 0; 0] [])
           (Historical.machine 0 0 0 []) (Historical.machine 0 0 5 [])
           "HELLO" "ILBDA" "A");
    vm_compute; reflexivity.
Defined.

(** C4: at every ring setting and every position in 0..25, a rotor whose
    wiring is a permutation of the alphabet maps every uppercase letter
    forward to a letter that its backward pass maps to the original; both
    passes only read the rotor. *)
Theorem C4_rotor_round_trip
        (w : list ascii) (n : ascii) (r p : Z) (L : ascii) :
  validWiring w = true ->
  0 <= r <= 25 -> 0 <= p <= 25 ->
  isLetter L = true ->
  exists d,
    RotorOps.forward (mkRotor w n r p) L = Ok d
    /\ RotorOps.backward (mkRotor w n r p) d = Ok L.
Proof.
  intros Hw _ _ HL. apply includes_In in HL.
  destruct (forward_then_backward (mkRotor w n r p) Hw L HL)
    as [d [Hf [_ Hb]]].
  now exists d.
Qed.

Lemma C4_rotor_round_trip_witness :
  validWiring (chars "EKMFLGDQVZNTOWYHXUSPAIBRCJ") = true
  /\ 0 <= 7 <= 25 /\ 0 <= 25 <= 25 /\ isLetter "K" = true
  /\ exists d,
      RotorOps.forward
        (mkRotor (chars "EKMFLGDQVZNTOWYHXUSPAIBRCJ") "Q" 7 25) "K" = Ok d
      /\ RotorOps.backward
           (mkRotor (chars "EKMFLGDQVZNTOWYHXUSPAIBRCJ") "Q" 7 25) d
         = Ok "K"%char.
Proof.
  split; [reflexivity|]. split; [lia|]. split; [lia|]. split; [reflexivity|].
  apply (C4_rotor_round_trip (chars "EKMFLGDQVZNTOWYHXUSPAIBRCJ") "Q" 7 25 "K");
    [reflexivity | lia | lia | reflexivity].
Defined.

(** C5: on a list of disjoint pairs, swapping twice gives the character
    back; the empty plugboard swaps nothing; a character in no pair maps to
    itself.  (This holds for every character, uppercase letters included.) *)
Theorem C5_plugboard_involution (L : ascii) (ps : list (ascii * ascii)) :
  disjointPairs ps = true ->
  plugboardSwap (plugboardSwap L ps) ps = L
  /\ plugboardSwap L [] = L
  /\ (~ In L (lettersOf ps) -> plugboardSwap L ps = L).
Proof.
  intros Hd. split; [now apply plugboardSwap_twice|].
  split; [reflexivity | apply plugboardSwap_outside].
Qed.

Lemma C5_plugboard_involution_witness :
  disjointPairs [("A", "B"); ("C", "D")]%char = true
  /\ plugboardSwap (plugboardSwap "C" [("A", "B"); ("C", "D")]%char)
                   [("A", "B"); ("C", "D")]%char = "C"%char
  /\ plugboardSwap "C" [] = "C"%char
  /\ (~ In "C"%char (lettersOf [("A", "B"); ("C", "D")]%char) ->
      plugboardSwap "C" [("A", "B"); ("C", "D")]%char = "C"%char).
Proof.
  split; [reflexivity|].
  apply (C5_plugboard_involution "C" [("A", "B"); ("C", "D")]%char).
  reflexivity.
Defined.

(** C6: [encryptChar] on a character outside the alphabet returns the
    character and the machine as it was (rotor positions included); and
    [process], on a well-formed machine, returns a text of the same length
    in which every non-alphabetic character of the input stands at its
    position. *)
Theorem C6_non_alphabetic_passthrough (R : list ascii) (m : Enigma) :
  validReflector R = true -> validMachine m = true ->
  (forall (m1 : Enigma) (c : ascii),
      isLetter c = false -> encryptChar R m1 c = Ok (m1, c))
  /\ (forall text : string,
         exists m' out,
           process R m text = Ok (m', out)
           /\ List.length (chars out) = List.length (chars text)
           /\ forall (i : nat) (c : ascii),
               nth_error (chars text) i = Some c ->
               isLetter c = false -> isLower c = false ->
               nth_error (chars out) i = Some c).
Proof.
  intros HR Hm. split.
  - intros m1 c Hc. apply encryptChar_other. now apply includes_false.
  - intros text.
    destruct (process_returns R m text HR Hm)
      as (m' & out & Hp & Hproc & _ & Hlen & _).
    exists m', (string_of_list_ascii out). split; [assumption|].
    rewrite chars_of_list. split; [assumption|]. intros i c Hi Hnl Hlow.
    apply (processChars_passthrough R _ _ _ _ Hp i c).
    + rewrite chars_toUpperCase, nth_error_map, Hi. cbn.
      now rewrite upper_not_lower.
    + now apply includes_false.
Qed.

Lemma C6_non_alphabetic_passthrough_witness :
  validReflector Historical.REFLECTOR = true
  /\ validMachine (Historical.machine 0 0 0 []) = true
  /\ (forall (m1 : Enigma) (c : ascii),
         isLetter c = false ->
         encryptChar Historical.REFLECTOR m1 c = Ok (m1, c))
  /\ (forall text : string,
         exists m' out,
           process Historical.REFLECTOR (Historical.machine 0 0 0 []) text
           = Ok (m', out)
           /\ List.length (chars out) = List.length (chars text)
           /\ forall (i : nat) (c : ascii),
               nth_error (chars text) i = Some c ->
               isLetter c = false -> isLower c = false ->
               nth_error (chars out) i = Some c).
Proof.
  split; [reflexivity|]. split; [reflexivity|].
  apply (C6_non_alphabetic_passthrough
           Historical.REFLECTOR (Historical.machine 0 0 0 []));
    reflexivity.
Defined.

(** C7: a configuration with a position or a ring setting outside 0..25,
    with fewer than three rotors, or with a letter in more than one
    plugboard pair is refused by the constructor with a configuration
    error: no machine is produced. *)
Theorem C7_fail_fast_construction
        (ROTORS : list (list ascii * ascii)) (cfg : Config) :
  malformed cfg ->
  construct ROTORS cfg = Err ConfigError
  /\ forall m, construct ROTORS cfg <> Ok m.
Proof.
  intros Hbad.
  assert (H : construct ROTORS cfg = Err ConfigError);
    [|split; [exact H | intros m; rewrite H; discriminate]].
  unfold construct.
  destruct (_ && _ && _) eqn:Elen; [|reflexivity]. cbn [negb].
  destruct (forallb inRange _ && forallb inRange _) eqn:Erange;
    [|reflexivity]. cbn [negb].
  destruct (plugboardOk (pairs cfg)) eqn:Eplug; [|reflexivity]. cbn [negb].
  exfalso.
  apply andb_prop in Elen. destruct Elen as [Elen _].
  apply andb_prop in Elen. destruct Elen as [Elen _].
  apply Nat.eqb_eq in Elen.
  apply andb_prop in Erange. destruct Erange as [Epos Ering].
  rewrite forallb_forall in Epos, Ering.
  unfold plugboardOk in Eplug. apply andb_prop in Eplug.
  destruct Eplug as [_ Hnd]. apply nodupb_NoDup in Hnd.
  destruct Hbad as [[p [Hin Hp]]|[[r [Hin Hr]]|[Hfew|Hdup]]].
  - specialize (Epos p Hin). unfold inRange in Epos. lia.
  - specialize (Ering r Hin). unfold inRange in Ering. lia.
  - lia.
  - destruct Hdup as (i & j & p & q & x & Hij & Hi & Hj & Hp & Hq).
    apply Hij. eapply shared_letter_same_pair; eassumption.
Qed.

Lemma C7_fail_fast_construction_witness :
  malformed (Historical.config [0; 0; 26] [0; 0; 0] [])
  /\ construct Historical.ROTORS (Historical.config [0; 0; 26] [0; 0; 0] [])
     = Err ConfigError
  /\ forall m,
      construct Historical.ROTORS (Historical.config [0; 0; 26] [0; 0; 0] [])
      <> Ok m.
Proof.
  assert (H : malformed (Historical.config [0; 0; 26] [0; 0; 0] [])).
  { left. exists 26. split; [simpl; tauto | lia]. }
  split; [exact H | apply (C7_fail_fast_construction _ _ H)].
Defined.

(** C8: [process] uppercases its input first, so a text and its uppercased
    form give the same result; and on a well-formed machine the output of
    [process] holds no lowercase letter. *)
Theorem C8_process_case (R : list ascii) (m : Enigma) (s : string) :
  validReflector R = true -> validMachine m = true ->
  process R m s = process R m (toUpperCase s)
  /\ exists m' out,
      process R m s = Ok (m', out)
      /\ forall c, In c (chars out) -> isLower c = false.
Proof.
  intros HR Hm. split.
  - unfold process. now rewrite toUpperCase_idempotent.
  - destruct (process_returns R m s HR Hm)
      as (m' & out & _ & Hproc & _ & _ & Hup & _).
    exists m', (string_of_list_ascii out). split; [assumption|].
    rewrite chars_of_list. intros c Hc.
    apply upper_fixed_not_lower. eapply map_fixed_In; eassumption.
Qed.

Lemma C8_process_case_witness :
  validReflector Historical.REFLECTOR = true
  /\ validMachine (Historical.machine 0 0 0 []) = true
  /\ process Historical.REFLECTOR (Historical.machine 0 0 0 []) "hello"
     = process Historical.REFLECTOR (Historical.machine 0 0 0 [])
               (toUpperCase "hello")
  /\ exists m' out,
      process Historical.REFLECTOR (Historical.machine 0 0 0 []) "hello"
      = Ok (m', out)
      /\ forall c, In c (chars out) -> isLower c = false.
Proof.
  split; [reflexivity|]. split; [reflexivity|].
  apply (C8_process_case
           Historical.REFLECTOR (Historical.machine 0 0 0 []) "hello");
    reflexivity.
Defined.

(** C9: on a well-formed machine, [encryptChar] on an uppercase letter
    returns, and the rotor in the right slot is afterwards the stepped
    rotor: its position is the previous one plus 1 modulo 26; [step] itself
    moves a rotor's position by 1 modulo 26 and changes nothing else. *)
Theorem C9_right_rotor_steps (R : list ascii) (m : Enigma) (c : ascii) :
  validReflector R = true -> validMachine m = true ->
  isLetter c = true ->
  (exists m' d r2 r2',
      encryptChar R m c = Ok (m', d)
      /\ nth_error (rotors m) 2 = Some r2
      /\ nth_error (rotors m') 2 = Some r2'
      /\ position r2' = (position r2 + 1) mod 26)
  /\ (forall r : Rotor,
         RotorOps.step r
         = mkRotor (wiring r) (notch r) (ringSetting r)
                   ((position r + 1) mod 26)).
Proof.
  intros HR Hm Hc. split; [|reflexivity].
  apply includes_In in Hc.
  destruct (encryptChar_letter R HR m c Hm Hc)
    as (m' & d & Hs & _ & He & _).
  destruct (validMachine_three m Hm) as (r0 & r1 & r2 & rest & E).
  rewrite (stepRotors_three m _ _ _ _ E) in Hs. injection Hs as Hm'.
  exists m', d, r2, (RotorOps.step r2).
  split; [assumption|]. rewrite <- Hm', E. cbn. auto.
Qed.

Lemma C9_right_rotor_steps_witness :
  validReflector Historical.REFLECTOR = true
  /\ validMachine (Historical.machine 0 0 25 []) = true
  /\ isLetter "A" = true
  /\ (exists m' d r2 r2',
         encryptChar Historical.REFLECTOR (Historical.machine 0 0 25 []) "A"
         = Ok (m', d)
         /\ nth_error (rotors (Historical.machine 0 0 25 [])) 2 = Some r2
         /\ nth_error (rotors m') 2 = Some r2'
         /\ position r2' = (position r2 + 1) mod 26)
  /\ (forall r : Rotor,
         RotorOps.step r
         = mkRotor (wiring r) (notch r) (ringSetting r)
                   ((position r + 1) mod 26)).
Proof.
  split; [reflexivity|]. split; [reflexivity|]. split; [reflexivity|].
  apply (C9_right_rotor_steps
           Historical.REFLECTOR (Historical.machine 0 0 25 []) "A");
    reflexivity.
Defined.

(** C10: [encryptChar] on a lowercase letter returns that letter, not its
    uppercase form, and the machine as it was: no rotor moves. *)
Theorem C10_lowercase_untouched (R : list ascii) (m : Enigma) (c : ascii) :
  isLower c = true ->
  encryptChar R m c = Ok (m, c) /\ c <> upper c.
Proof.
  intros Hc. split.
  - apply encryptChar_other. apply includes_false.
    now apply lower_not_letter.
  - intros E. symmetry in E. now apply (lower_upper_differs c Hc).
Qed.

Lemma C10_lowercase_untouched_witness :
  isLower "q" = true
  /\ encryptChar Historical.REFLECTOR (Historical.machine 0 4 4 []) "q"
     = Ok (Historical.machine 0 4 4 [], "q"%char)
  /\ "q"%char <> upper "q".
Proof.
  split; [reflexivity|].
  apply (C10_lowercase_untouched
           Historical.REFLECTOR (Historical.machine 0 4 4 []) "q").
  reflexivity.
Defined.

(** * Further properties of the stepping and encryption code *)

Lemma step_moves (r : Rotor) : RotorOps.step r <> r.
Proof.
  intros E. apply (f_equal position) in E. cbn in E.
  pose proof (mod26_range (position r + 1)) as Hb.
  destruct (Z.eq_dec (position r) 25) as [E25|N25].
  - rewrite E25 in E. discriminate E.
  - rewrite Z.mod_small in E by lia. lia.
Qed.

Lemma stepRotorsBuggy_three
      (m : Enigma) (r0 r1 r2 : Rotor) (rest : list Rotor) :
  rotors m = r0 :: r1 :: r2 :: rest ->
  stepRotorsBuggy m
  = Ok (mkEnigma
          ((if RotorOps.atNotch
                 (if RotorOps.atNotch r2 then RotorOps.step r1 else r1)
            then RotorOps.step r0 else r0)
           :: (if RotorOps.atNotch r2 then RotorOps.step r1 else r1)
           :: RotorOps.step r2 :: rest)
          (plugboardPairs m)).
Proof.
  intros E. destruct m as [rs ps]. cbn [rotors plugboardPairs] in *. subst rs.
  unfold stepRotorsBuggy, rotorAt, stepRotor.
  cbn [rotors plugboardPairs nth_error bind].
  destruct (RotorOps.atNotch r2);
    cbn [rotors plugboardPairs nth_error bind stepAt].
  - destruct (RotorOps.atNotch (RotorOps.step r1)); reflexivity.
  - destruct (RotorOps.atNotch r1); reflexivity.
Qed.

Lemma short_machine (m : Enigma) :
  (List.length (rotors m) < 3)%nat ->
  stepRotors m = Err TypeError /\ stepRotorsBuggy m = Err TypeError.
Proof.
  unfold stepRotors, stepRotorsBuggy, rotorAt.
  destruct (rotors m) as [|r0 [|r1 [|r2 rest]]]; cbn; intros H;
    try (split; reflexivity). lia.
Qed.

Lemma long_machine (m : Enigma) :
  (3 <= List.length (rotors m))%nat ->
  exists r0 r1 r2 rest, rotors m = r0 :: r1 :: r2 :: rest.
Proof.
  destruct (rotors m) as [|r0 [|r1 [|r2 rest]]]; cbn; intros H; try lia.
  now exists r0, r1, r2, rest.
Qed.

(** X1: [stepRotors] throws exactly on a machine with fewer than three
    rotors, and a type error is the only way it fails. *)
Theorem X1_stepRotors_throws_iff_short (m : Enigma) :
  (stepRotors m = Err TypeError <-> (List.length (rotors m) < 3)%nat)
  /\ (forall e, stepRotors m = Err e -> e = TypeError)
  /\ ((exists m', stepRotors m = Ok m')
      <-> (3 <= List.length (rotors m))%nat).
Proof.
  destruct (Nat.lt_ge_cases (List.length (rotors m)) 3) as [Hs|Hl].
  - destruct (short_machine m Hs) as [E _]. rewrite E.
    split; [tauto|]. split; [now intros e [= <-]|].
    split; [intros [m' H]; discriminate | lia].
  - destruct (long_machine m Hl) as (r0 & r1 & r2 & rest & E).
    rewrite (stepRotors_three m _ _ _ _ E).
    split; [split; [discriminate | lia]|].
    split; [discriminate|]. split; [auto | eauto].
Qed.

(** X2: on a machine with fewer than three rotors [encryptChar] still
    returns every character outside the alphabet unchanged, and throws on
    every letter: the alphabet guard comes before the stepping. *)
Theorem X2_encryptChar_short_machine
        (R : list ascii) (m : Enigma) (c : ascii) :
  (List.length (rotors m) < 3)%nat ->
  encryptChar R m c = if isLetter c then Err TypeError else Ok (m, c).
Proof.
  intros Hs. unfold encryptChar, isLetter.
  destruct (includes alphabet c); cbn [negb]; [|reflexivity].
  destruct (short_machine m Hs) as [E _]. now rewrite E.
Qed.

Lemma X2_encryptChar_short_machine_witness :
  (List.length (rotors (mkEnigma [mkRotor alphabet "A" 0 0;
                                  mkRotor alphabet "A" 0 0] [])) < 3)%nat
  /\ encryptChar Historical.REFLECTOR
                 (mkEnigma [mkRotor alphabet "A" 0 0;
                            mkRotor alphabet "A" 0 0] []) "A"
     = if isLetter "A" then Err TypeError
       else Ok (mkEnigma [mkRotor alphabet "A" 0 0;
                          mkRotor alphabet "A" 0 0] [], "A"%char).
Proof.
  split; [simpl; lia|].
  apply (X2_encryptChar_short_machine
           Historical.REFLECTOR
           (mkEnigma [mkRotor alphabet "A" 0 0; mkRotor alphabet "A" 0 0] [])
           "A").
  simpl. lia.
Defined.

(** X3: a keystroke changes rotor positions only, and only in the first
    three slots: the number of rotors, every wiring, notch and ring
    setting, the rotors after the third and the plugboard are as before. *)
Theorem X3_stepRotors_frame (m m' : Enigma) :
  stepRotors m = Ok m' ->
  List.length (rotors m') = List.length (rotors m)
  /\ map wiring (rotors m') = map wiring (rotors m)
  /\ map notch (rotors m') = map notch (rotors m)
  /\ map ringSetting (rotors m') = map ringSetting (rotors m)
  /\ skipn 3 (rotors m') = skipn 3 (rotors m)
  /\ plugboardPairs m' = plugboardPairs m.
Proof.
  intros Hs.
  destruct (Nat.lt_ge_cases (List.length (rotors m)) 3) as [Hshort|Hl].
  - destruct (short_machine m Hshort) as [E _]. congruence.
  - destruct (long_machine m Hl) as (r0 & r1 & r2 & rest & E).
    rewrite (stepRotors_three m _ _ _ _ E) in Hs. injection Hs as <-.
    rewrite E. cbn [rotors plugboardPairs].
    destruct (RotorOps.atNotch r1), (RotorOps.atNotch r2); cbn; auto 7.
Qed.

Lemma X3_stepRotors_frame_witness :
  stepRotors (Historical.machine 0 4 21 [("A", "B")]%char)
  = Ok (Historical.machine 1 6 22 [("A", "B")]%char)
  /\ List.length (rotors (Historical.machine 1 6 22 [("A", "B")]%char))
     = List.length (rotors (Historical.machine 0 4 21 [("A", "B")]%char))
  /\ map wiring (rotors (Historical.machine 1 6 22 [("A", "B")]%char))
     = map wiring (rotors (Historical.machine 0 4 21 [("A", "B")]%char))
  /\ map notch (rotors (Historical.machine 1 6 22 [("A", "B")]%char))
     = map notch (rotors (Historical.machine 0 4 21 [("A", "B")]%char))
  /\ map ringSetting (rotors (Historical.machine 1 6 22 [("A", "B")]%char))
     = map ringSetting (rotors (Historical.machine 0 4 21 [("A", "B")]%char))
  /\ skipn 3 (rotors (Historical.machine 1 6 22 [("A", "B")]%char))
     = skipn 3 (rotors (Historical.machine 0 4 21 [("A", "B")]%char))
  /\ plugboardPairs (Historical.machine 1 6 22 [("A", "B")]%char)
     = plugboardPairs (Historical.machine 0 4 21 [("A", "B")]%char).
Proof.
  split; [reflexivity|].
  apply (X3_stepRotors_frame
           (Historical.machine 0 4 21 [("A", "B")]%char)
           (Historical.machine 1 6 22 [("A", "B")]%char)).
  reflexivity.
Defined.

(** X4: the original and the fixed stepping routine give the same machine
    exactly when the middle rotor is at its notch neither before the
    keystroke nor after the right rotor's notch has moved it. *)
Theorem X4_stepping_versions_agree
        (m : Enigma) (r0 r1 r2 : Rotor) (rest : list Rotor) :
  rotors m = r0 :: r1 :: r2 :: rest ->
  (stepRotorsBuggy m = stepRotors m
   <-> RotorOps.atNotch r1 = false
       /\ RotorOps.atNotch
            (if RotorOps.atNotch r2 then RotorOps.step r1 else r1) = false).
Proof.
  intros E.
  rewrite (stepRotors_three m _ _ _ _ E), (stepRotorsBuggy_three m _ _ _ _ E).
  destruct (RotorOps.atNotch r1) eqn:N1.
  - split; [|intros [H _]; discriminate H].
    intros [= _ Hmid]. exfalso. symmetry in Hmid.
    now apply step_moves in Hmid.
  - destruct (RotorOps.atNotch r2) eqn:N2.
    + destruct (RotorOps.atNotch (RotorOps.step r1)) eqn:N1'.
      * split; [|intros [_ H]; discriminate H].
        intros [= Hleft]. exfalso. now apply step_moves in Hleft.
      * split; auto.
    + rewrite N1. split; auto.
Qed.

Lemma X4_stepping_versions_agree_witness :
  rotors (Historical.machine 0 0 0 [])
  = [mkRotor (chars "EKMFLGDQVZNTOWYHXUSPAIBRCJ") "Q" 0 0;
     mkRotor (chars "AJDKSIRUXBLHWTMCQGZNPYFVOE") "E" 0 0;
     mkRotor (chars "BDFHJLCPRTXVZNYEIWGAKMUSQO") "V" 0 0]
  /\ (stepRotorsBuggy (Historical.machine 0 0 0 [])
      = stepRotors (Historical.machine 0 0 0 [])
      <-> RotorOps.atNotch
            (mkRotor (chars "AJDKSIRUXBLHWTMCQGZNPYFVOE") "E" 0 0) = false
          /\ RotorOps.atNotch
               (if RotorOps.atNotch
                     (mkRotor (chars "BDFHJLCPRTXVZNYEIWGAKMUSQO") "V" 0 0)
                then RotorOps.step
                       (mkRotor (chars "AJDKSIRUXBLHWTMCQGZNPYFVOE") "E" 0 0)
                else mkRotor (chars "AJDKSIRUXBLHWTMCQGZNPYFVOE") "E" 0 0)
             = false).
Proof.
  split; [reflexivity|].
  apply (X4_stepping_versions_agree
           (Historical.machine 0 0 0 [])
           (mkRotor (chars "EKMFLGDQVZNTOWYHXUSPAIBRCJ") "Q" 0 0)
           (mkRotor (chars "AJDKSIRUXBLHWTMCQGZNPYFVOE") "E" 0 0)
           (mkRotor (chars "BDFHJLCPRTXVZNYEIWGAKMUSQO") "V" 0 0) []).
  reflexivity.
Defined.

(** X5: in the original stepping routine a middle rotor at its notch
    stays there for as long as the right rotor does not reach its own
    notch, and the left rotor steps on every one of these keystrokes. *)
Theorem X5_original_middle_rotor_stuck
        (n : nat) (m : Enigma) (r0 r1 r2 : Rotor) (rest : list Rotor) :
  rotors m = r0 :: r1 :: r2 :: rest ->
  RotorOps.atNotch r1 = true ->
  (forall k, (k < n)%nat ->
             RotorOps.atNotch (Nat.iter k RotorOps.step r2) = false) ->
  keystrokes stepRotorsBuggy n m
  = Ok (mkEnigma (Nat.iter n RotorOps.step r0 :: r1
                           :: Nat.iter n RotorOps.step r2 :: rest)
                 (plugboardPairs m)).
Proof.
  revert m r0 r2. induction n as [|n IH]; intros m r0 r2 E N1 Hright.
  - destruct m as [rs ps]. cbn in *. now subst rs.
  - cbn [keystrokes]. rewrite (stepRotorsBuggy_three m _ _ _ _ E).
    pose proof (Hright 0%nat ltac:(lia)) as N2.
    change (RotorOps.atNotch r2 = false) in N2.
    rewrite N2, N1. cbn [bind].
    rewrite (IH (mkEnigma (RotorOps.step r0 :: r1 :: RotorOps.step r2 :: rest)
                          (plugboardPairs m))
                (RotorOps.step r0) (RotorOps.step r2) eq_refl N1).
    + cbn [plugboardPairs]. now rewrite !Nat.iter_succ_r.
    + intros k Hk. rewrite <- Nat.iter_succ_r. apply Hright. lia.
Qed.

Lemma X5_original_middle_rotor_stuck_witness :
  keystrokes stepRotorsBuggy 3 (Historical.machine 0 4 0 [])
  = Ok (mkEnigma
          (Nat.iter 3 RotorOps.step
                    (mkRotor (chars "EKMFLGDQVZNTOWYHXUSPAIBRCJ") "Q" 0 0)
           :: mkRotor (chars "AJDKSIRUXBLHWTMCQGZNPYFVOE") "E" 0 4
           :: Nat.iter 3 RotorOps.step
                       (mkRotor (chars "BDFHJLCPRTXVZNYEIWGAKMUSQO") "V" 0 0)
           :: [])
          (plugboardPairs (Historical.machine 0 4 0 []))).
Proof.
  apply (X5_original_middle_rotor_stuck 3 (Historical.machine 0 4 0 [])).
  - reflexivity.
  - reflexivity.
  - intros k Hk. destruct k as [|[|[|k]]]; [reflexivity .. | lia].
Defined.

Lemma iter_step_position (n : nat) (r : Rotor) :
  0 <= position r <= 25 ->
  position (Nat.iter n RotorOps.step r) = (position r + Z.of_nat n) mod 26.
Proof.
  intros Hr. induction n as [|n IH].
  - cbn. rewrite Z.add_0_r. symmetry. apply Z.mod_small. lia.
  - rewrite Nat.iter_succ. cbn [RotorOps.step position]. rewrite IH.
    rewrite Zplus_mod_idemp_l. f_equal. lia.
Qed.

Lemma stepRotors_right (m : Enigma) (r2 : Rotor) :
  nth_error (rotors m) 2 = Some r2 ->
  exists m', stepRotors m = Ok m'
             /\ nth_error (rotors m') 2 = Some (RotorOps.step r2).
Proof.
  intros H2. destruct (long_machine m) as (r0 & r1 & x & rest & E).
  - assert (2 < List.length (rotors m))%nat
      by (apply nth_error_Some; congruence). lia.
  - rewrite E in H2. cbn in H2. injection H2 as ->.
    rewrite (stepRotors_three m _ _ _ _ E). eexists. split; reflexivity.
Qed.

(** X6: after [n] keystrokes the right rotor, started at a position [p] in
    0..25, stands at [(p + n) mod 26]: it turns once around in 26
    keystrokes, whatever the other rotors do. *)
Theorem X6_right_rotor_after_keystrokes
        (n : nat) (m : Enigma) (r2 : Rotor) :
  nth_error (rotors m) 2 = Some r2 ->
  0 <= position r2 <= 25 ->
  exists m' r2',
    keystrokes stepRotors n m = Ok m'
    /\ nth_error (rotors m') 2 = Some r2'
    /\ position r2' = (position r2 + Z.of_nat n) mod 26.
Proof.
  intros H2 Hp.
  assert (H : exists m', keystrokes stepRotors n m = Ok m'
                         /\ nth_error (rotors m') 2
                            = Some (Nat.iter n RotorOps.step r2)).
  { revert m r2 H2 Hp. induction n as [|n IH]; intros m r2 H2 Hp.
    - exists m. split; [reflexivity | assumption].
    - destruct (stepRotors_right m r2 H2) as [m1 [Hs H1]].
      destruct (IH m1 (RotorOps.step r2) H1) as [m' [Hk Hn]].
      + cbn. pose proof (mod26_range (position r2 + 1)). lia.
      + exists m'. cbn [keystrokes]. rewrite Hs. cbn [bind].
        split; [assumption|]. now rewrite Nat.iter_succ_r. }
  destruct H as [m' [Hk Hn]].
  exists m', (Nat.iter n RotorOps.step r2).
  split; [assumption|]. split; [assumption|].
  now apply iter_step_position.
Qed.

Lemma X6_right_rotor_after_keystrokes_witness :
  exists m' r2',
    keystrokes stepRotors 26 (Historical.machine 3 7 11 []) = Ok m'
    /\ nth_error (rotors m') 2 = Some r2'
    /\ position r2'
       = (position (mkRotor (chars "BDFHJLCPRTXVZNYEIWGAKMUSQO") "V" 0 11)
          + Z.of_nat 26) mod 26.
Proof.
  apply (X6_right_rotor_after_keystrokes
           26 (Historical.machine 3 7 11 [])
           (mkRotor (chars "BDFHJLCPRTXVZNYEIWGAKMUSQO") "V" 0 11)).
  - reflexivity.
  - cbn. lia.
Defined.

(** X7: at a fixed state of a well-formed machine, [encryptChar] is
    reciprocal on letters: a letter goes to a letter, that letter goes back
    to the first one, and no other letter has the same image. *)
Theorem X7_encryptChar_reciprocal
        (R : list ascii) (m : Enigma) (c : ascii) :
  validReflector R = true -> validMachine m = true ->
  isLetter c = true ->
  exists m' d,
    encryptChar R m c = Ok (m', d)
    /\ isLetter d = true
    /\ encryptChar R m d = Ok (m', c)
    /\ forall c2, isLetter c2 = true ->
                  encryptChar R m c2 = Ok (m', d) -> c2 = c.
Proof.
  intros HR Hm Hc. apply includes_In in Hc.
  destruct (encryptChar_letter R HR m c Hm Hc)
    as (m' & d & _ & _ & He & Hd & _ & Hback).
  exists m', d. split; [assumption|].
  split; [now apply includes_In|]. split; [assumption|].
  intros c2 Hc2 He2. apply includes_In in Hc2.
  destruct (encryptChar_letter R HR m c2 Hm Hc2)
    as (m2 & d2 & _ & _ & He2' & _ & _ & Hback2).
  rewrite He2 in He2'. injection He2' as <- <-. congruence.
Qed.

Lemma X7_encryptChar_reciprocal_witness :
  exists m' d,
    encryptChar Historical.REFLECTOR (Historical.machine 25 25 25 []) "Z"
    = Ok (m', d)
    /\ isLetter d = true
    /\ encryptChar Historical.REFLECTOR (Historical.machine 25 25 25 []) d
       = Ok (m', "Z"%char)
    /\ forall c2, isLetter c2 = true ->
                  encryptChar Historical.REFLECTOR
                              (Historical.machine 25 25 25 []) c2
                  = Ok (m', d) -> c2 = "Z"%char.
Proof.
  apply (X7_encryptChar_reciprocal
           Historical.REFLECTOR (Historical.machine 25 25 25 []) "Z");
    reflexivity.
Defined.

Lemma processChars_keystrokes
        (R : list ascii) (cs : list ascii) (m m' : Enigma)
        (out : list ascii) :
  processChars R m cs = Ok (m', out) ->
  keystrokes stepRotors (List.length (filter isLetter cs)) m = Ok m'
  /\ List.length out = List.length cs.
Proof.
  revert m m' out. induction cs as [|c cs IH]; intros m m' out Hp.
  - cbn in Hp. injection Hp as <- <-. split; reflexivity.
  - cbn [processChars] in Hp. cbn [filter]. unfold isLetter at 1.
    unfold encryptChar in Hp.
    destruct (includes alphabet c); cbn [negb] in Hp.
    + destruct (stepRotors m) as [m1|] eqn:Hs; [|discriminate].
      cbn [bind] in Hp.
      destruct (signalPath R m1 c) as [d|]; [|discriminate].
      cbn [bind] in Hp.
      destruct (processChars R m1 cs) as [[m2 o]|] eqn:Hq; [|discriminate].
      cbn [bind] in Hp. injection Hp as <- <-.
      destruct (IH _ _ _ Hq) as [Hk Hl].
      cbn [List.length keystrokes]. rewrite Hs. cbn [bind].
      split; [assumption | now rewrite Hl].
    + cbn [bind] in Hp.
      destruct (processChars R m cs) as [[m2 o]|] eqn:Hq; [|discriminate].
      cbn [bind] in Hp. injection Hp as <- <-.
      destruct (IH _ _ _ Hq) as [Hk Hl].
      split; [assumption | cbn; now rewrite Hl].
Qed.

(** X8: on a well-formed machine with a well-formed reflector a run of
    [encryptChar] calls over any list of characters returns, with one
    character per input character, and leaves the machine in the state
    reached by as many keystrokes as there were letters in the list,
    whatever the letters are. *)
Theorem X8_state_after_characters
        (R : list ascii) (cs : list ascii) (m : Enigma) :
  validReflector R = true -> validMachine m = true ->
  exists m' out,
    processChars R m cs = Ok (m', out)
    /\ keystrokes stepRotors (List.length (filter isLetter cs)) m = Ok m'
    /\ List.length out = List.length cs.
Proof.
  intros HR Hm.
  destruct (processChars_involution R HR cs m Hm)
    as (m' & out & Hp & _).
  destruct (processChars_keystrokes R cs m m' out Hp) as [Hk Hl].
  now exists m', out.
Qed.

Lemma X8_state_after_characters_witness :
  validReflector Historical.REFLECTOR = true
  /\ validMachine (Historical.machine 0 0 0 []) = true
  /\ exists m' out,
      processChars Historical.REFLECTOR (Historical.machine 0 0 0 [])
                   (chars "A1 B") = Ok (m', out)
      /\ keystrokes stepRotors
                    (List.length (filter isLetter (chars "A1 B")))
                    (Historical.machine 0 0 0 []) = Ok m'
      /\ List.length out = List.length (chars "A1 B").
Proof.
  split; [reflexivity|]. split; [reflexivity|].
  apply (X8_state_after_characters
           Historical.REFLECTOR (chars "A1 B") (Historical.machine 0 0 0 []));
    reflexivity.
Defined.

Lemma signalPath_after_buggy (R : list ascii) (m : Enigma) (c : ascii) :
  signalPath R m c
  = (x <- signalPathBuggy R m c ;; Ok (plugboardSwap x (plugboardPairs m))).
Proof.
  unfold signalPath, signalPathBuggy.
  destruct (forwardAll (rotors m) _) as [c2|]; cbn [bind]; [|reflexivity].
  destruct (reflect R c2) as [c3|]; cbn [bind]; reflexivity.
Qed.

Lemma stepRotors_keeps_pairs (m m' : Enigma) :
  stepRotors m = Ok m' -> plugboardPairs m' = plugboardPairs m.
Proof.
  unfold stepRotors.
  destruct (rotorAt m 1) as [r1|]; [|discriminate]. cbn [bind].
  destruct (rotorAt m 2) as [r2|]; [|discriminate]. cbn [bind].
  intros [= <-].
  destruct (RotorOps.atNotch r2), (RotorOps.atNotch r1); reflexivity.
Qed.

Lemma stepRotorsBuggy_valid (m : Enigma) :
  validMachine m = true ->
  exists m', stepRotorsBuggy m = Ok m' /\ validMachine m' = true
             /\ plugboardPairs m' = plugboardPairs m.
Proof.
  intros Hm. destruct (validMachine_three m Hm) as (r0 & r1 & r2 & rest & E).
  rewrite (stepRotorsBuggy_three m _ _ _ _ E). eexists.
  split; [reflexivity|]. split; [|reflexivity].
  unfold validMachine in *. cbn [rotors plugboardPairs]. rewrite E in Hm.
  destruct (RotorOps.atNotch r2);
    [destruct (RotorOps.atNotch (RotorOps.step r1))
    | destruct (RotorOps.atNotch r1)]; exact Hm.
Qed.

Lemma signalPathBuggy_without_plugboard
      (R : list ascii) (m : Enigma) (c : ascii) :
  plugboardPairs m = [] -> signalPathBuggy R m c = signalPath R m c.
Proof.
  intros Hp. rewrite signalPath_after_buggy, Hp.
  destruct (signalPathBuggy R m c); reflexivity.
Qed.

Lemma stepping_versions_agree_if
      (m : Enigma) (r0 r1 r2 : Rotor) (rest : list Rotor) :
  rotors m = r0 :: r1 :: r2 :: rest ->
  RotorOps.atNotch r1 = false ->
  RotorOps.atNotch (if RotorOps.atNotch r2 then RotorOps.step r1 else r1)
  = false ->
  stepRotorsBuggy m = stepRotors m.
Proof.
  intros E N1 N1'.
  rewrite (stepRotors_three m _ _ _ _ E), (stepRotorsBuggy_three m _ _ _ _ E).
  now rewrite N1, N1'.
Qed.

(** X9: with no plugboard pair configured the original program (the
    original [encryptChar] on the original [stepRotors]) is reciprocal on
    the letters at every state of a well-formed machine: a letter goes to
    another letter, and that letter, from the same state, goes back to the
    first one. *)
Theorem X9_original_reciprocal_without_plugboard
        (R : list ascii) (m : Enigma) (c : ascii) :
  validReflector R = true -> validMachine m = true ->
  plugboardPairs m = [] ->
  isLetter c = true ->
  exists m' d,
    encryptCharBuggy R stepRotorsBuggy m c = Ok (m', d)
    /\ isLetter d = true /\ d <> c
    /\ encryptCharBuggy R stepRotorsBuggy m d = Ok (m', c).
Proof.
  intros HR Hm Hp Hc. pose proof Hc as Hc'. apply includes_In in Hc'.
  destruct (stepRotorsBuggy_valid m Hm) as [m' [Hs [Hm' Hp']]].
  rewrite Hp in Hp'.
  destruct (signalPath_involution R HR m' c Hm' Hc')
    as [d [Hf [Hd [Hne Hb]]]].
  rewrite <- (signalPathBuggy_without_plugboard R m' c Hp') in Hf.
  rewrite <- (signalPathBuggy_without_plugboard R m' d Hp') in Hb.
  apply includes_In in Hd. exists m', d.
  unfold encryptCharBuggy. unfold isLetter in Hc, Hd.
  rewrite Hc, Hd. cbn [negb]. rewrite Hs. cbn [bind]. rewrite Hf, Hb.
  cbn [bind]. auto.
Qed.

Lemma X9_original_reciprocal_without_plugboard_witness :
  validReflector Historical.REFLECTOR = true
  /\ validMachine (Historical.machine 0 4 4 []) = true
  /\ plugboardPairs (Historical.machine 0 4 4 []) = []
  /\ isLetter "A" = true
  /\ exists m' d,
      encryptCharBuggy Historical.REFLECTOR stepRotorsBuggy
                       (Historical.machine 0 4 4 []) "A" = Ok (m', d)
      /\ isLetter d = true /\ d <> "A"%char
      /\ encryptCharBuggy Historical.REFLECTOR stepRotorsBuggy
                          (Historical.machine 0 4 4 []) d
         = Ok (m', "A"%char).
Proof.
  split; [reflexivity|]. split; [reflexivity|]. split; [reflexivity|].
  split; [reflexivity|].
  apply (X9_original_reciprocal_without_plugboard
           Historical.REFLECTOR (Historical.machine 0 4 4 []) "A");
    reflexivity.
Defined.

(** X10: the two fixes are the only differences between the original
    program and the fixed one: on a machine with no plugboard pair whose
    middle rotor is at its notch neither before the keystroke nor after the
    right rotor's notch has moved it, the original [encryptChar] on the
    original [stepRotors] and the fixed [encryptChar] on the fixed
    [stepRotors] give the same result on every character. *)
Theorem X10_programs_agree_off_notch_without_plugboard
        (R : list ascii) (m : Enigma) (r0 r1 r2 : Rotor)
        (rest : list Rotor) (c : ascii) :
  rotors m = r0 :: r1 :: r2 :: rest ->
  plugboardPairs m = [] ->
  RotorOps.atNotch r1 = false ->
  RotorOps.atNotch (if RotorOps.atNotch r2 then RotorOps.step r1 else r1)
  = false ->
  encryptCharBuggy R stepRotorsBuggy m c = encryptChar R m c.
Proof.
  intros E Hp N1 N1'. unfold encryptChar, encryptCharBuggy.
  destruct (includes alphabet c); cbn [negb]; [|reflexivity].
  rewrite (stepping_versions_agree_if m _ _ _ _ E N1 N1').
  destruct (stepRotors m) as [m1|] eqn:Hs; cbn [bind]; [|reflexivity].
  rewrite signalPathBuggy_without_plugboard; [reflexivity|].
  now rewrite (stepRotors_keeps_pairs m m1 Hs).
Qed.

Lemma X10_programs_agree_off_notch_without_plugboard_witness :
  rotors (Historical.machine 5 10 21 [])
  = [mkRotor (chars "EKMFLGDQVZNTOWYHXUSPAIBRCJ") "Q" 0 5;
     mkRotor (chars "AJDKSIRUXBLHWTMCQGZNPYFVOE") "E" 0 10;
     mkRotor (chars "BDFHJLCPRTXVZNYEIWGAKMUSQO") "V" 0 21]
  /\ plugboardPairs (Historical.machine 5 10 21 []) = []
  /\ encryptCharBuggy Historical.REFLECTOR stepRotorsBuggy
                      (Historical.machine 5 10 21 []) "P"
     = encryptChar Historical.REFLECTOR (Historical.machine 5 10 21 []) "P".
Proof.
  split; [reflexivity|]. split; [reflexivity|].
  apply (X10_programs_agree_off_notch_without_plugboard
           Historical.REFLECTOR (Historical.machine 5 10 21 [])
           (mkRotor (chars "EKMFLGDQVZNTOWYHXUSPAIBRCJ") "Q" 0 5)
           (mkRotor (chars "AJDKSIRUXBLHWTMCQGZNPYFVOE") "E" 0 10)
           (mkRotor (chars "BDFHJLCPRTXVZNYEIWGAKMUSQO") "V" 0 21) []);
    reflexivity.
Defined.

(** X11: the original [encryptChar], on a well-formed machine and with
    either stepping routine, sends a letter to a letter; when that
    ciphertext letter is in no plugboard pair, encrypting it from the same
    state gives back the plugboard partner of the plaintext letter, so the
    round trip restores the letter only if it is unplugged. *)
Theorem X11_original_round_trip_swaps
        (R : list ascii) (step : Enigma -> result Enigma)
        (m m' : Enigma) (c : ascii) :
  validReflector R = true ->
  step m = Ok m' -> validMachine m' = true ->
  isLetter c = true ->
  exists d,
    encryptCharBuggy R step m c = Ok (m', d)
    /\ isLetter d = true
    /\ (~ In d (lettersOf (plugboardPairs m')) ->
        encryptCharBuggy R step m d
        = Ok (m', plugboardSwap c (plugboardPairs m'))).
Proof.
  intros HR Hs Hm' Hc. pose proof Hc as Hc'. apply includes_In in Hc.
  destruct (validMachine_parts m' Hm') as [_ [Hl Hd]].
  destruct (signalPath_involution R HR m' c Hm' Hc) as [e [Hp [He [_ Hq]]]].
  rewrite signalPath_after_buggy in Hp.
  destruct (signalPathBuggy R m' c) as [d|] eqn:Ed; [|discriminate].
  cbn [bind] in Hp. injection Hp as Hde.
  assert (Hd' : d = plugboardSwap e (plugboardPairs m'))
    by (now rewrite <- Hde, plugboardSwap_twice).
  assert (Hdl : In d alphabet)
    by (rewrite Hd'; now apply plugboardSwap_letter).
  exists d. split; [|split].
  - unfold encryptCharBuggy. unfold isLetter in Hc'. rewrite Hc'.
    cbn [negb]. rewrite Hs. cbn [bind]. now rewrite Ed.
  - now apply includes_In.
  - intros Hout. rewrite (plugboardSwap_outside d _ Hout) in Hde. subst e.
    rewrite signalPath_after_buggy in Hq.
    destruct (signalPathBuggy R m' d) as [x|] eqn:Ex; [|discriminate].
    cbn [bind] in Hq. injection Hq as Hx.
    unfold encryptCharBuggy. apply includes_In in Hdl. rewrite Hdl.
    cbn [negb]. rewrite Hs. cbn [bind]. rewrite Ex. cbn [bind].
    now rewrite <- Hx, plugboardSwap_twice.
Qed.

Lemma X11_original_round_trip_swaps_witness :
  exists d,
    encryptCharBuggy Historical.REFLECTOR stepRotorsBuggy
                     (Historical.machine 0 0 0 [("A", "B"); ("C", "D")]%char)
                     "C"
    = Ok (Historical.machine 0 0 1 [("A", "B"); ("C", "D")]%char, d)
    /\ isLetter d = true
    /\ (~ In d (lettersOf
                  (plugboardPairs
                     (Historical.machine 0 0 1
                                         [("A", "B"); ("C", "D")]%char))) ->
        encryptCharBuggy Historical.REFLECTOR stepRotorsBuggy
                         (Historical.machine 0 0 0
                                             [("A", "B"); ("C", "D")]%char) d
        = Ok (Historical.machine 0 0 1 [("A", "B"); ("C", "D")]%char,
              plugboardSwap
                "C"
                (plugboardPairs
                   (Historical.machine 0 0 1
                                       [("A", "B"); ("C", "D")]%char)))).
Proof.
  apply (X11_original_round_trip_swaps
           Historical.REFLECTOR stepRotorsBuggy
           (Historical.machine 0 0 0 [("A", "B"); ("C", "D")]%char)
           (Historical.machine 0 0 1 [("A", "B"); ("C", "D")]%char) "C");
    reflexivity.
Defined.
